(** * pxp-agent, [Util/bolt_helpers]: fetching a task file into the cache

    A shallow embedding of [downloadFileFromMaster], [downloadFileWithCurl],
    [createUrlEndpoint] and [calculateSha256], together with the properties
    of the download / verify / install protocol that they implement.

    The collaborators the code calls but does not define (OpenSSL's EVP
    digest, libcurl's escaping, leatherman's curl client, boost::filesystem)
    are modelled by their contracts; everything inside [PXPAgent::Util] is
    transcribed from the C++ source. *)

From Stdlib Require Import ZArith Lia List String Ascii DecimalString.
From Stdlib.Strings Require Import Byte.
From stdpp Require Import base option list strings gmap.

Local Open Scope Z_scope.

(** ** SHA-256 (FIPS 180-4), the digest behind [EVP_sha256()] *)

Module SHA256.

(** 32-bit words are [Z] in [0, 2^32); the wrap-around is explicit. *)
Definition wrap32 (x : Z) : Z := x mod 2 ^ 32.
Definition add32 (x y : Z) : Z := wrap32 (x + y).
Definition not32 (x : Z) : Z := Z.lxor x 0xffffffff.
Definition rotr (n x : Z) : Z :=
  Z.lor (Z.shiftr x n) (wrap32 (Z.shiftl x (32 - n))).

Definition Ch (x y z : Z) : Z := Z.lxor (Z.land x y) (Z.land (not32 x) z).
Definition Maj (x y z : Z) : Z :=
  Z.lxor (Z.lxor (Z.land x y) (Z.land x z)) (Z.land y z).
Definition Sigma0 (x : Z) : Z := Z.lxor (Z.lxor (rotr 2 x) (rotr 13 x)) (rotr 22 x).
Definition Sigma1 (x : Z) : Z := Z.lxor (Z.lxor (rotr 6 x) (rotr 11 x)) (rotr 25 x).
Definition sigma0 (x : Z) : Z := Z.lxor (Z.lxor (rotr 7 x) (rotr 18 x)) (Z.shiftr x 3).
Definition sigma1 (x : Z) : Z := Z.lxor (Z.lxor (rotr 17 x) (rotr 19 x)) (Z.shiftr x 10).

(** The constants are what FIPS 180-4 says they are: the first 32 bits of
    the fractional parts of the cube roots (for [K]) and of the square
    roots (for [H0]) of the first primes. *)
Definition is_prime (n : Z) : bool :=
  forallb (fun d => negb (n mod d =? 0)) (map Z.of_nat (seq 2 (Z.to_nat n - 2))).

Definition primes_below (bound : nat) : list Z :=
  filter (fun n => is_prime n = true) (map Z.of_nat (seq 2 (bound - 2))).

Definition cube_root_floor (n : Z) : Z :=
  fold_left (fun x i => let y := x + 2 ^ i in if y * y * y <=? n then y else x)
            (map Z.of_nat (rev (seq 0 36))) 0.

Definition frac_cube_root (p : Z) : Z := wrap32 (cube_root_floor (p * 2 ^ 96)).
Definition frac_square_root (p : Z) : Z := wrap32 (Z.sqrt (p * 2 ^ 64)).

Definition K : list Z := Eval vm_compute in map frac_cube_root (primes_below 312).

(** The eight working variables / the intermediate hash value. *)
Record regs : Type := Regs {
  ra : Z; rb : Z; rc : Z; rd : Z; re : Z; rf : Z; rg : Z; rh : Z }.

Definition H0 : regs :=
  Eval vm_compute in
  Regs (frac_square_root 2) (frac_square_root 3) (frac_square_root 5)
       (frac_square_root 7) (frac_square_root 11) (frac_square_root 13)
       (frac_square_root 17) (frac_square_root 19).

Definition byteZ (b : byte) : Z := Z.of_N (Byte.to_N b).
Definition Zbyte (z : Z) : byte :=
  match Byte.of_N (Z.to_N (z mod 256)) with
  | Some b => b
  | None => x00
  end.

(** Big-endian packing of bytes into 32-bit words. *)
Fixpoint words_of_bytes (bs : list byte) : list Z :=
  match bs with
  | b0 :: b1 :: b2 :: b3 :: rest =>
      (byteZ b0 * 2 ^ 24 + byteZ b1 * 2 ^ 16 + byteZ b2 * 2 ^ 8 + byteZ b3)
        :: words_of_bytes rest
  | _ => []
  end.

Definition bytes_of_word (w : Z) : list byte :=
  [ Zbyte (Z.shiftr w 24); Zbyte (Z.shiftr w 16); Zbyte (Z.shiftr w 8); Zbyte w ].

(** Message padding: a 1 bit, zeros up to 56 mod 64, the bit length on
    eight bytes. *)
Definition pad (msg : list byte) : list byte :=
  let len := Z.of_nat (length msg) in
  let bits := (8 * len) mod 2 ^ 64 in
  msg ++ [x80] ++ repeat x00 (Z.to_nat ((55 - len) mod 64))
      ++ bytes_of_word (Z.shiftr bits 32) ++ bytes_of_word (wrap32 bits).

(** One round: [win] is the sliding window W[t..t+15] of the schedule. *)
Definition next_w (win : list Z) : Z :=
  add32 (add32 (sigma1 (nth 14 win 0)) (nth 9 win 0))
        (add32 (sigma0 (nth 1 win 0)) (nth 0 win 0)).

Definition round (st : regs * list Z) (k : Z) : regs * list Z :=
  let '(r, win) := st in
  let w := nth 0 win 0 in
  let t1 := add32 (add32 (add32 (rh r) (Sigma1 (re r))) (Ch (re r) (rf r) (rg r)))
                  (add32 k w) in
  let t2 := add32 (Sigma0 (ra r)) (Maj (ra r) (rb r) (rc r)) in
  (Regs (add32 t1 t2) (ra r) (rb r) (rc r) (add32 (rd r) t1) (re r) (rf r) (rg r),
   tl win ++ [next_w win]).

Definition compress (h : regs) (block : list byte) : regs :=
  let r := fst (fold_left round K (h, words_of_bytes block)) in
  Regs (add32 (ra h) (ra r)) (add32 (rb h) (rb r)) (add32 (rc h) (rc r))
       (add32 (rd h) (rd r)) (add32 (re h) (re r)) (add32 (rf h) (rf r))
       (add32 (rg h) (rg r)) (add32 (rh h) (rh r)).

Fixpoint blocks (n : nat) (h : regs) (bs : list byte) : regs :=
  match n with
  | O => h
  | S n' => blocks n' (compress h (firstn 64 bs)) (skipn 64 bs)
  end.

Definition serialize (h : regs) : list byte :=
  bytes_of_word (ra h) ++ bytes_of_word (rb h) ++ bytes_of_word (rc h)
    ++ bytes_of_word (rd h) ++ bytes_of_word (re h) ++ bytes_of_word (rf h)
    ++ bytes_of_word (rg h) ++ bytes_of_word (rh h).

Definition sha256 (msg : list byte) : list byte :=
  let p := pad msg in
  serialize (blocks (length p / 64)%nat H0 p).

End SHA256.

(** ** OpenSSL's EVP digest interface

    [EVP_DigestInit_ex], [EVP_DigestUpdate] and [EVP_DigestFinal_ex] by their
    contract: the context stands for the bytes fed so far, and finalising
    hashes them. *)

Definition EVP_MD_CTX : Type := list byte.
Definition EVP_DigestInit_ex : EVP_MD_CTX := [].
Definition EVP_DigestUpdate (mdctx : EVP_MD_CTX) (buffer : list byte) (cnt : nat)
  : EVP_MD_CTX := mdctx ++ firstn cnt buffer.
Definition EVP_DigestFinal_ex (mdctx : EVP_MD_CTX) : list byte := SHA256.sha256 mdctx.

(** ** boost::algorithm::hex and ::tolower *)

Definition hex_digit (n : N) : ascii :=
  match String.get (N.to_nat n) "0123456789ABCDEF" with
  | Some c => c
  | None => "0"%char
  end.

(** [alg::hex]: two upper-case digits per byte, high nibble first. *)
Fixpoint hex (md : list byte) : string :=
  match md with
  | [] => EmptyString
  | b :: rest =>
      String (hex_digit (N.shiftr (Byte.to_N b) 4))
        (String (hex_digit (N.land (Byte.to_N b) 15)) (hex rest))
  end.

Definition tolower (c : ascii) : ascii :=
  let n := N_of_ascii c in
  if ((65 <=? n) && (n <=? 90))%N then ascii_of_N (n + 32) else c.

Fixpoint transform (f : ascii -> ascii) (s : string) : string :=
  match s with
  | EmptyString => EmptyString
  | String c rest => String (f c) (transform f rest)
  end.

Definition bytes_of_string (s : string) : list byte := list_byte_of_string s.

(** ** Exceptions and the world the code runs in *)

(** [Module::ProcessingError] is the only exception the module throws
    itself; [filesystem_error] is boost's. *)
Inductive exn : Type :=
  | ProcessingError (what : string)
  | filesystem_error (what : string).

Inductive outcome (A : Type) : Type :=
  | Returned (a : A)
  | Thrown (e : exn).
Arguments Returned {A} a.
Arguments Thrown {A} e.

(** A file: its bytes, its permission bits, and, for a file the device
    cannot deliver completely, the number of bytes after which reading
    fails. *)
Record regular_file : Type := File {
  content : list byte;
  perms : Z;
  read_fault : option nat }.

Definition readable (f : regular_file) : Prop := read_fault f = None.

Record request : Type := Request {
  url : string;
  connection_timeout : Z;
  timeout : Z }.

Record response : Type := Response {
  status_code : Z;
  body : string }.

(** What [client.download_file] does to its caller: it fills the response
    and returns, or throws one of leatherman's two exception classes. *)
Inductive download_result : Type :=
  | Responded (resp : response)
  | http_file_download_exception (what : string)
  | http_request_exception (what : string).

(** The collaborators: leatherman's curl client, a mutable object that
    may write the filesystem, and [fs::unique_path], which draws a name. *)
Class Collaborators : Type := {
  client : Type;
  download_file :
    client -> request -> string -> Z -> gmap string regular_file ->
    download_result * gmap string regular_file * client;
  unique_path : string -> string }.

Section World.
Context `{Collaborators}.

(** Filesystem, the client object, and two observation logs: the
    requests handed to the client and the warnings written to the log. *)
Record world : Type := World {
  files : gmap string regular_file;
  curl : client;
  requests : list request;
  warnings : list string }.

Definition M (A : Type) : Type := world -> outcome A * world.

Definition ret {A} (a : A) : M A := fun w => (Returned a, w).
Definition throw {A} (e : exn) : M A := fun w => (Thrown e, w).
Definition bind {A B} (m : M A) (k : A -> M B) : M B :=
  fun w => match m w with
           | (Returned a, w') => k a w'
           | (Thrown e, w') => (Thrown e, w')
           end.
End World.

Notation "'do' x <- m ; k" := (bind m (fun x => k))
  (at level 10, x name, m at level 100, k at level 200).
Notation "'do' ' p <- m ; k" := (bind m (fun x => let p := x in k))
  (at level 10, p pattern, m at level 100, k at level 200).

(** Modelled from the spec: [NIX_DIR_PERMS] lives in pxp-agent/configuration,
    which is not among the sources; the policy is owner read/write/execute,
    group read/execute. *)
Definition NIX_DIR_PERMS : Z := 0x1e8.
Definition NIX_TASK_FILE_PERMS : Z := NIX_DIR_PERMS.

(** ** boost::filesystem *)

Section Filesystem.
Context `{Collaborators}.

Definition fs_exists (p : string) : M bool :=
  fun w => (Returned (bool_decide (is_Some (files w !! p))), w).

Definition set_files (fs : gmap string regular_file) (w : world) : world :=
  World fs (curl w) (requests w) (warnings w).

Definition fs_permissions (p : string) (prms : Z) : M unit :=
  fun w => match files w !! p with
           | Some f => (Returned tt,
                        set_files (<[p := File (content f) prms (read_fault f)]> (files w)) w)
           | None => (Thrown (filesystem_error ("boost::filesystem::permissions: " +:+ p)), w)
           end.

(** [fs::remove] of a missing file is not an error. *)
Definition fs_remove (p : string) : M bool :=
  fun w => (Returned (bool_decide (is_Some (files w !! p))),
            set_files (delete p (files w)) w).

Definition fs_rename (from to : string) : M unit :=
  fun w => match files w !! from with
           | Some f => (Returned tt,
                        if decide (from = to) then w
                        else set_files (<[to := f]> (delete from (files w))) w)
           | None => (Thrown (filesystem_error ("boost::filesystem::rename: " +:+ from)), w)
           end.
End Filesystem.

Definition ends_with_slash (p : string) : bool :=
  match String.get (String.length p - 1)%nat p with
  | Some c => bool_decide (c = "/"%char)
  | None => false
  end.

(** [operator/] on [fs::path]. *)
Definition path_append (p q : string) : string :=
  match q with
  | EmptyString => p
  | String c _ =>
      if bool_decide (c = "/"%char) then p +:+ q
      else if bool_decide (p = EmptyString) || ends_with_slash p then p +:+ q
      else p +:+ "/" +:+ q
  end.

(** [fs::path::filename]: what follows the last separator. *)
Fixpoint last_component (s acc : string) : string :=
  match s with
  | EmptyString => acc
  | String c rest =>
      if bool_decide (c = "/"%char) then last_component rest EmptyString
      else last_component rest (acc +:+ String c EmptyString)
  end.

Fixpoint only_slashes (s : string) : bool :=
  match s with
  | EmptyString => true
  | String c rest => bool_decide (c = "/"%char) && only_slashes rest
  end.

Definition path_filename (p : string) : string :=
  match p with
  | EmptyString => EmptyString
  | _ => if only_slashes p then "/"
         else if ends_with_slash p then "."
         else last_component p EmptyString
  end.

(** A path is streamed into a message in double quotes, with ampersand as
    the escape character. *)
Definition dquote : ascii := ascii_of_nat 34.

Fixpoint quote_escape (s : string) : string :=
  match s with
  | EmptyString => EmptyString
  | String c rest =>
      if bool_decide (c = dquote) || bool_decide (c = "&"%char)
      then String "&" (String c (quote_escape rest))
      else String c (quote_escape rest)
  end.

Definition quoted (p : string) : string :=
  String dquote (quote_escape p) +:+ String dquote EmptyString.

(** ** std::ifstream, as far as [calculateSha256] uses it *)

Record ifstream : Type := Ifstream {
  pending : list byte;
  fault_in : option nat;
  eofbit : bool;
  failbit : bool;
  badbit : bool;
  gcount : nat }.

Definition ifstream_open (fs : gmap string regular_file) (p : string) : ifstream :=
  match fs !! p with
  | Some f => Ifstream (content f) (read_fault f) false false false 0
  | None => Ifstream [] None false true false 0
  end.

Definition good (ifs : ifstream) : bool :=
  negb (eofbit ifs || failbit ifs || badbit ifs).
(** [operator bool] is [!fail()], and [fail()] is [failbit | badbit]. *)
Definition stream_ok (ifs : ifstream) : bool := negb (failbit ifs || badbit ifs).
Definition eof (ifs : ifstream) : bool := eofbit ifs.

(** The bytes a read stores land at the front of the buffer; what it does
    not reach keeps its old content. *)
Definition store (got buffer : list byte) : list byte :=
  got ++ skipn (length got) buffer.

Definition fault_hits (ifs : ifstream) (n : nat) : bool :=
  match fault_in ifs with
  | Some k => bool_decide (k < n)%nat && bool_decide (k < length (pending ifs))%nat
  | None => false
  end.

(** [ifs.read(buffer, n)]: the stream afterwards and the buffer. *)
Definition ifstream_read (ifs : ifstream) (buffer : list byte) (n : nat)
  : ifstream * list byte :=
  if negb (good ifs) then
    (Ifstream (pending ifs) (fault_in ifs) (eofbit ifs) true (badbit ifs) 0, buffer)
  else if fault_hits ifs n then
    (Ifstream (pending ifs) (fault_in ifs) false false true 0,
     store (firstn (default 0%nat (fault_in ifs)) (pending ifs)) buffer)
  else
    let got := firstn n (pending ifs) in
    let short := bool_decide (length got < n)%nat in
    (Ifstream (skipn n (pending ifs)) ((fun k => k - n)%nat <$> fault_in ifs)
              short short false (length got),
     store got buffer).

(** ** [calculateSha256] *)

Definition CHUNK_SIZE : nat := Z.to_nat 0x8000.

(** The [while (ifs.read(buffer, CHUNK_SIZE))] loop. *)
Fixpoint read_chunks (fuel n : nat) (ifs : ifstream) (buffer : list byte)
    (mdctx : EVP_MD_CTX) : option (ifstream * list byte * EVP_MD_CTX) :=
  match fuel with
  | O => None
  | S fuel' =>
      let '(ifs', buffer') := ifstream_read ifs buffer n in
      if stream_ok ifs'
      then read_chunks fuel' n ifs' buffer' (EVP_DigestUpdate mdctx buffer' n)
      else Some (ifs', buffer', mdctx)
  end.

Definition read_error (path : string) : exn :=
  ProcessingError ("Error while reading " +:+ path).

(** [digest_file n buffer fs path] is the function with the chunk size and
    the (uninitialised) buffer made parameters. *)
Definition digest_file (n : nat) (buffer : list byte) (fs : gmap string regular_file)
    (path : string) : outcome string :=
  let mdctx := EVP_DigestInit_ex in
  let ifs := ifstream_open fs path in
  match read_chunks (S (length (pending ifs))) n ifs buffer mdctx with
  | None => Thrown (read_error path)
  | Some (ifs, buffer, mdctx) =>
      if negb (eof ifs) then Thrown (read_error path)
      else
        let mdctx := EVP_DigestUpdate mdctx buffer (gcount ifs) in
        let md_value := EVP_DigestFinal_ex mdctx in
        let md_value_hex := hex md_value in
        Returned (transform tolower md_value_hex)
  end.

Definition calculateSha256 (fs : gmap string regular_file) (path : string) : outcome string :=
  digest_file CHUNK_SIZE (repeat x00 CHUNK_SIZE) fs path.

(** ** [createUrlEndpoint] *)

(** The ["uri"] entry of a task file: a path and, optionally, an object of
    string parameters, kept in document order as [keys()] yields them. *)
Record uri_t : Type := Uri {
  uri_path : string;
  uri_params : option (list (string * string)) }.

Definition keys (params : list (string * string)) : list string := params.*1.

(** [params.get<std::string>(key)]: the first member of that name. *)
Fixpoint params_get (params : list (string * string)) (key : string) : string :=
  match params with
  | [] => EmptyString
  | (k, v) :: rest => if bool_decide (k = key) then v else params_get rest key
  end.

(** libcurl's [curl_easy_escape]: everything but the unreserved characters
    becomes a percent sign and two upper-case hexadecimal digits. *)
Definition unreserved (c : ascii) : bool :=
  let n := N_of_ascii c in
  ((48 <=? n) && (n <=? 57) || (65 <=? n) && (n <=? 90) || (97 <=? n) && (n <=? 122)
   || (n =? 45) || (n =? 46) || (n =? 95) || (n =? 126))%N.

Fixpoint curl_escaped_string (s : string) : string :=
  match s with
  | EmptyString => EmptyString
  | String c rest =>
      if unreserved c then String c (curl_escaped_string rest)
      else String "%" (String (hex_digit (N.shiftr (N_of_ascii c) 4))
                      (String (hex_digit (N.land (N_of_ascii c) 15))
                              (curl_escaped_string rest)))
  end.

Fixpoint pop_back (s : string) : string :=
  match s with
  | EmptyString => EmptyString
  | String c EmptyString => EmptyString
  | String c rest => String c (pop_back rest)
  end.

Definition createUrlEndpoint (uri : uri_t) : string :=
  let url := uri_path uri in
  let params := default [] (uri_params uri) in
  if bool_decide (params = []) then url
  else
    let url := url +:+ "?" in
    let url :=
      fold_left
        (fun url key =>
           let escaped_key := curl_escaped_string key in
           let escaped_val := curl_escaped_string (params_get params key) in
           url +:+ (escaped_key +:+ "=" +:+ escaped_val +:+ "&"))
        (keys params) url in
    pop_back url.

(** ** [downloadFileWithCurl] *)

Definition uint32_mul (a b : Z) : Z := (a * b) mod 2 ^ 32.

Definition decimal (z : Z) : string := NilZero.string_of_int (Z.to_int z).

Definition http_status_message (url : string) (resp : response) : string :=
  url +:+ " returned a response with HTTP status " +:+ decimal (status_code resp)
      +:+ ". Response body: " +:+ body resp.

Definition warning_message (master_uri what : string) : string :=
  "Downloading the task file from the master-uri '" +:+ master_uri
    +:+ "' failed. Reason: " +:+ what.

Definition fatal_error (what : string) : exn :=
  ProcessingError ("Downloading the task file failed. Reason: " +:+ what).

Section Downloader.
Context `{Collaborators}.

Definition client_download_file (req : request) (file_path : string) (prms : Z)
  : M download_result :=
  fun w =>
    let '(r, fs', c') := download_file (curl w) req file_path prms (files w) in
    (Returned r, World fs' c' (requests w ++ [req]) (warnings w)).

Definition LOG_WARNING (msg : string) : M unit :=
  fun w => (Returned tt, World (files w) (curl w) (requests w) (warnings w ++ [msg])).

(** The body of the [try] with its two handlers: the result tuple after
    one master-uri, or the [ProcessingError] of the second handler. *)
Definition try_master_uri (master_uri endpoint : string)
    (connect_timeout_s timeout_s : Z) (file_path : string)
    (result : bool * string) : M (bool * string) :=
  let url := master_uri +:+ endpoint in
  let req := Request url (uint32_mul connect_timeout_s 1000)
                         (uint32_mul timeout_s 1000) in
  do r <- client_download_file req file_path NIX_TASK_FILE_PERMS;
  match r with
  | Responded resp =>
      if 400 <=? status_code resp then
        let what := http_status_message url resp in
        do _ <- LOG_WARNING (warning_message master_uri what);
        ret (fst result, what)
      else ret result
  | http_file_download_exception what =>
      do _ <- LOG_WARNING (warning_message master_uri what);
      ret (fst result, what)
  | http_request_exception what => throw (fatal_error what)
  end.

(** The [for] loop over the master-uris. *)
Fixpoint for_master_uris (master_uris : list string) (endpoint : string)
    (connect_timeout_s timeout_s : Z) (file_path : string)
    (result : bool * string) : M (bool * string) :=
  match master_uris with
  | [] => ret result
  | master_uri :: rest =>
      do result <- try_master_uri master_uri endpoint connect_timeout_s timeout_s
                                  file_path result;
      do found <- fs_exists file_path;
      if found then ret (true, snd result)
      else for_master_uris rest endpoint connect_timeout_s timeout_s file_path result
  end.

Definition downloadFileWithCurl (master_uris : list string)
    (connect_timeout_s timeout_s : Z) (file_path : string) (uri : uri_t)
  : M (bool * string) :=
  let endpoint := createUrlEndpoint uri in
  let result := (false, EmptyString) in
  for_master_uris master_uris endpoint connect_timeout_s timeout_s file_path result.
End Downloader.

(** ** [downloadFileFromMaster] *)

(** The task file description the caller passes as JSON. *)
Record task_file : Type := TaskFile {
  file_filename : string;
  file_sha256 : string;
  file_uri : uri_t }.

Definition no_master_uris : exn :=
  ProcessingError "Cannot download task. No master-uris were provided".

Definition all_master_uris_failed (name msg : string) : exn :=
  ProcessingError
    ("Downloading the task file " +:+ name
       +:+ " failed after trying all the available master-uris. Most recent error message: "
       +:+ msg).

Definition sha_differs (name : string) : exn :=
  ProcessingError
    ("The downloaded file " +:+ quoted name
       +:+ " has a SHA that differs from the provided SHA").

Definition temp_task_model : string := "temp_task_%%%%-%%%%-%%%%-%%%%".

Section Installer.
Context `{Collaborators}.

Definition digest (path : string) : M string :=
  fun w => (calculateSha256 (files w) path, w).

Definition tempname_in (cache_dir : string) : string :=
  path_append cache_dir (unique_path temp_task_model).

Definition downloadFileFromMaster (master_uris : list string)
    (connect_timeout timeout : Z) (cache_dir destination : string)
    (file : task_file) : M string :=
  let filename := path_filename (file_filename file) in
  let sha256 := file_sha256 file in
  do present <- fs_exists destination;
  do cached <- (if present
                then do d <- digest destination; ret (bool_decide (sha256 = d))
                else ret false);
  if cached then
    do _ <- fs_permissions destination NIX_TASK_FILE_PERMS;
    ret destination
  else if bool_decide (master_uris = []) then throw no_master_uris
  else
    let tempname := tempname_in cache_dir in
    do download_result <- downloadFileWithCurl master_uris connect_timeout timeout
                                               tempname (file_uri file);
    if negb (fst download_result) then
      throw (all_master_uris_failed (file_filename file) (snd download_result))
    else
      do d <- digest tempname;
      if negb (bool_decide (sha256 = d)) then
        do _ <- fs_remove tempname;
        throw (sha_differs filename)
      else
        do _ <- fs_rename tempname destination;
        ret destination.
End Installer.

(** ** A scripted transport

    A client in the manner of leatherman's: each URL is answered as the
    script says. A body is written to the file only for a status below
    400; otherwise it comes back in the response and the file is left
    alone. The client counts its calls. *)

Inductive reply : Type :=
  | Serve (status : Z) (payload : string)
  | TransferFails (what : string)
  | SetupFails (what : string).

Definition scripted_download (script : string -> reply) (calls : nat)
    (req : request) (file_path : string) (prms : Z) (fs : gmap string regular_file)
  : download_result * gmap string regular_file * nat :=
  match script (url req) with
  | Serve status payload =>
      if 400 <=? status then (Responded (Response status payload), fs, S calls)
      else (Responded (Response status EmptyString),
            <[file_path := File (bytes_of_string payload) prms None]> fs, S calls)
  | TransferFails what => (http_file_download_exception what, fs, S calls)
  | SetupFails what => (http_request_exception what, fs, S calls)
  end.

Definition scripted (script : string -> reply) (fresh : string) : Collaborators :=
  {| client := nat;
     download_file := scripted_download script;
     unique_path := fun _ => fresh |}.

(** ** Vocabulary of the properties *)

(** The characters of a lower-case hexadecimal string. *)
Definition lower_hex_char (c : ascii) : bool :=
  let n := N_of_ascii c in
  ((48 <=? n) && (n <=? 57) || (97 <=? n) && (n <=? 102))%N.

Fixpoint string_forallb (p : ascii -> bool) (s : string) : bool :=
  match s with
  | EmptyString => true
  | String c rest => p c && string_forallb p rest
  end.

(** The lower-case hexadecimal SHA-256 of a byte sequence. *)
Definition sha256_hex (bytes : list byte) : string :=
  transform tolower (hex (SHA256.sha256 bytes)).

(** The two classes of failure of one attempt. A mirror-local failure is
    what the first handler catches: the exception thrown by the client
    while transferring, or the one the code throws itself on a status of
    400 or more; it carries the message of that exception. A fatal
    failure is what the second handler catches. *)
Definition mirror_local (url : string) (r : download_result) : option string :=
  match r with
  | Responded resp =>
      if 400 <=? status_code resp then Some (http_status_message url resp) else None
  | http_file_download_exception what => Some what
  | http_request_exception _ => None
  end.

Definition fatal (r : download_result) : option string :=
  match r with
  | http_request_exception what => Some what
  | _ => None
  end.

Definition request_for (master_uri endpoint : string) (connect_timeout_s timeout_s : Z)
  : request :=
  Request (master_uri +:+ endpoint) (uint32_mul connect_timeout_s 1000)
          (uint32_mul timeout_s 1000).

Section Exhausted.
Context `{Collaborators}.
Variables (endpoint : string) (connect_timeout_s timeout_s : Z) (file_path : string).

(** [exhausted l r w r' w']: starting in [w] with result tuple [r], every
    master-uri of [l] is tried in turn, no attempt is fatal, the file is
    not there after any of them, and the loop is left with [r'] in [w']. *)
Inductive exhausted :
  list string -> bool * string -> world -> bool * string -> world -> Prop :=
| exhausted_nil r w : exhausted [] r w r w
| exhausted_cons master_uri rest r w r1 w1 r2 w2 :
    try_master_uri master_uri endpoint connect_timeout_s timeout_s file_path r w
      = (Returned r1, w1) ->
    files w1 !! file_path = None ->
    exhausted rest r1 w1 r2 w2 ->
    exhausted (master_uri :: rest) r w r2 w2.
End Exhausted.

(** A string occurs inside another. *)
Definition occurs_in (needle s : string) : Prop :=
  exists before after, s = before +:+ needle +:+ after.

(** The query string the endpoint is to carry: the escaped pairs, an
    ampersand between each two. *)
Fixpoint join_with (sep : string) (l : list string) : string :=
  match l with
  | [] => EmptyString
  | [x] => x
  | x :: rest => x +:+ sep +:+ join_with sep rest
  end.

Definition escaped_pair (kv : string * string) : string :=
  curl_escaped_string kv.1 +:+ "=" +:+ curl_escaped_string kv.2.

Fixpoint count_char (c : ascii) (s : string) : nat :=
  match s with
  | EmptyString => 0
  | String d rest => (if bool_decide (d = c) then 1 else 0) + count_char c rest
  end.

Fixpoint last_char (s : string) : option ascii :=
  match s with
  | EmptyString => None
  | String c EmptyString => Some c
  | String _ rest => last_char rest
  end.

(** What the loop of [createUrlEndpoint] has appended before the last
    character is dropped: an ampersand after every pair. *)
Fixpoint pairs_with_ampersands (l : list string) : string :=
  match l with
  | [] => EmptyString
  | x :: rest => x +:+ "&" +:+ pairs_with_ampersands rest
  end.

(** The characters that structure a query string. *)
Definition structural (c : ascii) : bool :=
  bool_decide (c = "?"%char) || bool_decide (c = "&"%char) || bool_decide (c = "="%char).

(** The query of a parameter object: one escaped pair per key, in the
    order of [keys], each value fetched by [get]. *)
Definition query_of (kvs : list (string * string)) : string :=
  join_with "&" (map (fun k => escaped_pair (k, params_get kvs k)) (keys kvs)).

(** The client writes no file other than the one it is asked to download
    to. *)
Definition writes_only_target `{Collaborators} : Prop :=
  forall c req p prms fs q,
    q <> p -> (download_file c req p prms fs).1.2 !! q = fs !! q.

(** The test of the fast path fails: nothing at the destination, or a
    file whose digest is not the expected one. *)
Definition cache_miss (fs : gmap string regular_file) (destination sha256 : string) : Prop :=
  fs !! destination = None
  \/ exists d, calculateSha256 fs destination = Returned d /\ d <> sha256.

(** ** A small installation to run the functions on *)

Module Fixture.
Definition task_uri : uri_t := Uri "/tasks/run" (Some [("b", "2"); ("a", "1")]%string).

(** Master [a] answers 500, [b] serves the task, [c] cannot be
    connected to, [d] serves something else; any other fails while
    transferring. *)
Definition script (u : string) : reply :=
  if bool_decide (u = "https://a/tasks/run?b=2&a=1"%string) then Serve 500 "boom"
  else if bool_decide (u = "https://b/tasks/run?b=2&a=1"%string) then Serve 200 "abc"
  else if bool_decide (u = "https://c/tasks/run?b=2&a=1"%string)
       then SetupFails "could not connect"
  else if bool_decide (u = "https://d/tasks/run?b=2&a=1"%string) then Serve 200 "tampered"
  else TransferFails "transfer closed".

Definition env : Collaborators := scripted script "temp_task_0a1b-2c3d-4e5f-6789".

Definition task : task_file :=
  TaskFile "tasks/init.rb"
           "ba7816bf8f01cfea414140de5dae2223b00361a396177a9cb410ff61f20015ad"
           task_uri.

Definition cache_dir : string := "/cache".
Definition destination : string := "/cache/init.rb".
Definition tempname : string := "/cache/temp_task_0a1b-2c3d-4e5f-6789".

Definition world_with (fs : gmap string regular_file) : @world env :=
  @World env fs 0%nat [] [].

(** Nothing cached; the task cached with other permissions; an older
    version cached; a file left behind under the temporary name. *)
Definition empty_cache : @world env := world_with ∅.
Definition cached : @world env :=
  world_with {[ destination := File (bytes_of_string "abc") 0x1a4 None ]}.
Definition outdated : @world env :=
  world_with {[ destination := File (bytes_of_string "old") 0x1e8 None ]}.
Definition leftover : @world env :=
  world_with {[ tempname := File (bytes_of_string "left") 0x1e8 None ]}.

Definition request_to (master_uri : string) : request :=
  request_for master_uri (createUrlEndpoint task_uri) 5 10.

(** The message of the exception thrown on the 500 of master [a]. *)
Definition status_500 : string :=
  "https://a/tasks/run?b=2&a=1 returned a response with HTTP status 500. Response body: boom".
End Fixture.

(** ** Vocabulary of the further properties *)

(** The device fault of a file lies inside its content, so that reading
    the file through meets it. *)
Definition fault_reached (f : regular_file) : bool :=
  match read_fault f with
  | Some k => bool_decide (k < length (content f))%nat
  | None => false
  end.

(** A fault, if any, lies at or beyond the end of what is left to read. *)
Definition fault_beyond (fault : option nat) (len : nat) : Prop :=
  match fault with
  | Some k => (len <= k)%nat
  | None => True
  end.

(** The characters a query can hold: the unreserved ones, the percent sign
    of an escape, and the two separators. *)
Definition query_char (c : ascii) : bool :=
  unreserved c || bool_decide (c = "%"%char) || bool_decide (c = "="%char)
  || bool_decide (c = "&"%char).

(** Reading an escaped string back, to tell escaped strings apart: the
    value of a hexadecimal digit, and the string with every escape
    replaced by the character it stands for. *)
Definition unhex (c : ascii) : N :=
  let n := N_of_ascii c in
  (if (48 <=? n) && (n <=? 57) then n - 48
   else if (65 <=? n) && (n <=? 70) then n - 55
   else 0)%N.

Fixpoint curl_unescape (s : string) : string :=
  match s with
  | EmptyString => EmptyString
  | String c rest =>
      if bool_decide (c = "%"%char) then
        match rest with
        | String hi (String lo rest') =>
            String (ascii_of_N (16 * unhex hi + unhex lo)) (curl_unescape rest')
        | _ => String c (curl_unescape rest)
        end
      else String c (curl_unescape rest)
  end.

Section InstallCases.
Context `{Collaborators}.
Variables (master_uris : list string) (connect_timeout timeout : Z)
          (cache_dir destination : string) (file : task_file) (w : world).

(** The ways through [downloadFileFromMaster], one per [return] or
    [throw] that can end a call started in [w]: each with what has been
    observed on the way and the outcome it ends in. *)
Inductive install_case : outcome string * world -> Prop :=
| case_hit f :
    files w !! destination = Some f ->
    calculateSha256 (files w) destination = Returned (file_sha256 file) ->
    install_case
      (Returned destination,
       set_files (<[destination := File (content f) NIX_TASK_FILE_PERMS (read_fault f)]>
                    (files w)) w)
| case_unreadable f e :
    files w !! destination = Some f ->
    calculateSha256 (files w) destination = Thrown e ->
    install_case (Thrown e, w)
| case_no_master_uris :
    cache_miss (files w) destination (file_sha256 file) ->
    master_uris = [] ->
    install_case (Thrown no_master_uris, w)
| case_download_throws e w1 :
    cache_miss (files w) destination (file_sha256 file) ->
    master_uris <> [] ->
    downloadFileWithCurl master_uris connect_timeout timeout (tempname_in cache_dir)
                         (file_uri file) w = (Thrown e, w1) ->
    install_case (Thrown e, w1)
| case_download_fails msg w1 :
    cache_miss (files w) destination (file_sha256 file) ->
    master_uris <> [] ->
    downloadFileWithCurl master_uris connect_timeout timeout (tempname_in cache_dir)
                         (file_uri file) w = (Returned (false, msg), w1) ->
    install_case (Thrown (all_master_uris_failed (file_filename file) msg), w1)
| case_temp_unreadable msg w1 e :
    cache_miss (files w) destination (file_sha256 file) ->
    master_uris <> [] ->
    downloadFileWithCurl master_uris connect_timeout timeout (tempname_in cache_dir)
                         (file_uri file) w = (Returned (true, msg), w1) ->
    calculateSha256 (files w1) (tempname_in cache_dir) = Thrown e ->
    install_case (Thrown e, w1)
| case_sha_differs msg w1 d :
    cache_miss (files w) destination (file_sha256 file) ->
    master_uris <> [] ->
    downloadFileWithCurl master_uris connect_timeout timeout (tempname_in cache_dir)
                         (file_uri file) w = (Returned (true, msg), w1) ->
    calculateSha256 (files w1) (tempname_in cache_dir) = Returned d ->
    d <> file_sha256 file ->
    install_case
      (Thrown (sha_differs (path_filename (file_filename file))),
       set_files (delete (tempname_in cache_dir) (files w1)) w1)
| case_installed msg w1 f :
    cache_miss (files w) destination (file_sha256 file) ->
    master_uris <> [] ->
    downloadFileWithCurl master_uris connect_timeout timeout (tempname_in cache_dir)
                         (file_uri file) w = (Returned (true, msg), w1) ->
    calculateSha256 (files w1) (tempname_in cache_dir) = Returned (file_sha256 file) ->
    files w1 !! tempname_in cache_dir = Some f ->
    install_case
      (Returned destination,
       if decide (tempname_in cache_dir = destination) then w1
       else set_files (<[destination := f]> (delete (tempname_in cache_dir) (files w1)))
                      w1).
End InstallCases.

(** More of the small installation: the task cached on a device that
    fails after one byte, and an older version cached beside a file of
    another task. *)
Module Fixture2.
Definition damaged : @world Fixture.env :=
  Fixture.world_with
    {[ Fixture.destination := File (bytes_of_string "abc") 0x1e8 (Some 1%nat) ]}.

Definition neighbour : string := "/cache/other.rb".

Definition crowded : @world Fixture.env :=
  Fixture.world_with
    (<[ neighbour := File (bytes_of_string "other") 0x1e8 None ]>
       {[ Fixture.destination := File (bytes_of_string "old") 0x1e8 None ]}).

(** The task as the client writes it, and the worlds after the 500 of
    master [a] and after the installation from master [b]. *)
Definition abc_file : regular_file :=
  File (bytes_of_string "abc") NIX_TASK_FILE_PERMS None.

Definition after_a : @world Fixture.env :=
  @World Fixture.env ∅ 1%nat [Fixture.request_to "https://a"]
         [warning_message "https://a" Fixture.status_500].

Definition installed : @world Fixture.env :=
  @World Fixture.env {[ Fixture.destination := abc_file ]} 2%nat
         [Fixture.request_to "https://a"; Fixture.request_to "https://b"]
         [warning_message "https://a" Fixture.status_500].

(** A client whose disk is worn: it answers 200 and writes the task, but
    the file it writes cannot be read past its first byte. *)
Definition worn_download (calls : nat) (req : request) (file_path : string)
    (prms : Z) (fs : gmap string regular_file)
  : download_result * gmap string regular_file * nat :=
  (Responded (Response 200 EmptyString),
   <[file_path := File (bytes_of_string "abc") prms (Some 1%nat)]> fs, S calls).

Definition worn : Collaborators :=
  {| client := nat;
     download_file := worn_download;
     unique_path := fun _ => "temp_task_0a1b-2c3d-4e5f-6789"%string |}.

Definition worn_world : @world worn := @World worn ∅ 0%nat [] [].
End Fixture2.

(** * Properties *)

(** ** SHA-256 against the FIPS 180-4 test vectors *)

Example K_ends :
  length SHA256.K = 64%nat /\ hd 0 SHA256.K = 0x428a2f98 /\ last SHA256.K = Some 0xc67178f2.
Proof. vm_compute. auto. Qed.

Example sha256_empty :
  transform tolower (hex (SHA256.sha256 [])) =
  "e3b0c44298fc1c149afbf4c8996fb92427ae41e4649b934ca495991b7852b855"%string.
Proof. vm_compute. reflexivity. Qed.

Example sha256_abc :
  transform tolower (hex (SHA256.sha256 (bytes_of_string "abc"))) =
  "ba7816bf8f01cfea414140de5dae2223b00361a396177a9cb410ff61f20015ad"%string.
Proof. vm_compute. reflexivity. Qed.

Example sha256_two_blocks :
  transform tolower (hex (SHA256.sha256 (bytes_of_string
    "abcdbcdecdefdefgefghfghighijhijkijkljklmklmnlmnomnopnopq"))) =
  "248d6a61d20638b8e5c026930c3e6039a33ce45964ff2167f6ecedd419db06c1"%string.
Proof. vm_compute. reflexivity. Qed.

(** ** The digest of a file *)

Lemma serialize_length (h : SHA256.regs) : length (SHA256.serialize h) = 32%nat.
Proof. reflexivity. Qed.

Lemma sha256_length (msg : list byte) : length (SHA256.sha256 msg) = 32%nat.
Proof. unfold SHA256.sha256. apply serialize_length. Qed.

Lemma hex_length (md : list byte) : String.length (hex md) = (2 * length md)%nat.
Proof. induction md as [|b md IH]; simpl; [reflexivity | rewrite IH; lia]. Qed.

Lemma transform_length (f : ascii -> ascii) (s : string) :
  String.length (transform f s) = String.length s.
Proof. induction s as [|c s IH]; simpl; congruence. Qed.

Lemma lower_hex_of_byte (b : byte) :
  lower_hex_char (tolower (hex_digit (N.shiftr (Byte.to_N b) 4))) = true
  /\ lower_hex_char (tolower (hex_digit (N.land (Byte.to_N b) 15))) = true.
Proof. destruct b; split; vm_compute; reflexivity. Qed.

Lemma lower_hex_digest (md : list byte) :
  string_forallb lower_hex_char (transform tolower (hex md)) = true.
Proof.
  induction md as [|b md IH]; [reflexivity|].
  destruct (lower_hex_of_byte b) as [Hhi Hlo].
  cbn [hex transform string_forallb]. rewrite Hhi, Hlo, IH. reflexivity.
Qed.

Lemma sha256_hex_length (bytes : list byte) : String.length (sha256_hex bytes) = 64%nat.
Proof.
  unfold sha256_hex. rewrite transform_length, hex_length, sha256_length. reflexivity.
Qed.

Lemma chunk_size_pos : (0 < CHUNK_SIZE)%nat.
Proof. unfold CHUNK_SIZE. lia. Qed.

Section ReadLoop.
Variable n : nat.
Hypothesis n_pos : (0 < n)%nat.

Lemma firstn_store (got buffer : list byte) :
  firstn (length got) (store got buffer) = got.
Proof. unfold store. apply take_app_length. Qed.

(** The loop never runs out of fuel: each turn that continues has taken
    [n] bytes off the stream. *)
Lemma read_chunks_total (fuel : nat) :
  forall ifs buffer mdctx,
    (length (pending ifs) < fuel)%nat ->
    is_Some (read_chunks fuel n ifs buffer mdctx).
Proof using n_pos.
  induction fuel as [|fuel IH]; intros ifs buffer mdctx Hlen; [lia|].
  cbn [read_chunks]. unfold ifstream_read.
  destruct (negb (good ifs)) eqn:Hgood.
  { unfold stream_ok; cbn. eauto. }
  destruct (fault_hits ifs n) eqn:Hfault.
  { unfold stream_ok; cbn. eauto. }
  unfold stream_ok; cbn [failbit badbit].
  rewrite orb_false_r.
  case_bool_decide as Hshort; cbn [negb]; [eauto|].
  apply IH. cbn [pending].
  rewrite length_take in Hshort. rewrite length_drop. lia.
Qed.

(** On a readable stream holding [q] whole chunks and a shorter tail,
    the loop hashes the whole chunks and stops at end-of-file with the
    tail at the front of the buffer and its length in [gcount]. *)
Lemma read_chunks_whole (q : nat) :
  forall fuel chunks last buffer mdctx g,
    length chunks = (q * n)%nat ->
    (length last < n)%nat ->
    (q < fuel)%nat ->
    exists buffer',
      read_chunks fuel n (Ifstream (chunks ++ last) None false false false g)
                  buffer mdctx
      = Some (Ifstream [] None true true false (length last), buffer',
              mdctx ++ chunks)
      /\ firstn (length last) buffer' = last.
Proof using n_pos.
  induction q as [|q IH]; intros fuel chunks last buffer mdctx g Hch Hlast Hfuel.
  - destruct fuel as [|fuel]; [lia|].
    apply length_zero_iff_nil in Hch. subst chunks.
    exists (store last buffer). split; [|apply firstn_store].
    cbn [read_chunks app]. unfold ifstream_read. cbn.
    rewrite take_ge by lia. rewrite drop_ge by lia.
    rewrite bool_decide_eq_true_2 by lia.
    unfold stream_ok. cbn. rewrite app_nil_r. reflexivity.
  - destruct fuel as [|fuel]; [lia|].
    assert (Hn : (n <= length chunks)%nat) by lia.
    destruct (IH fuel (skipn n chunks) last (store (firstn n chunks) buffer)
                 (mdctx ++ firstn n chunks) n) as (buffer' & Hrun & Hfront).
    { rewrite length_drop. lia. }
    { exact Hlast. }
    { lia. }
    exists buffer'. split; [|exact Hfront].
    cbn [read_chunks]. unfold ifstream_read. cbn.
    rewrite take_app_le by lia. rewrite drop_app_le by lia.
    rewrite length_take, Nat.min_l by lia.
    rewrite bool_decide_eq_false_2 by lia.
    unfold stream_ok. cbn.
    unfold EVP_DigestUpdate at 1.
    replace (firstn n (store (firstn n chunks) buffer)) with (firstn n chunks).
    2:{ pose proof (firstn_store (firstn n chunks) buffer) as Hs.
        rewrite length_take, Nat.min_l in Hs by lia. symmetry. exact Hs. }
    rewrite Hrun. rewrite <- app_assoc, take_drop. reflexivity.
Qed.

(** Hence [digest_file] on a readable file is the hash of its content,
    whatever the buffer held before. *)
Lemma digest_file_readable (buffer : list byte) (fs : gmap string regular_file)
    (path : string) (f : regular_file) :
  fs !! path = Some f -> readable f ->
  digest_file n buffer fs path = Returned (sha256_hex (content f)).
Proof using n_pos.
  intros Hf Hr. unfold digest_file, ifstream_open. rewrite Hf, Hr.
  cbn [pending].
  set (data := content f).
  set (q := (length data / n)%nat).
  assert (Hq : (q * n <= length data)%nat).
  { unfold q. pose proof (Nat.Div0.mul_div_le (length data) n). lia. }
  assert (Hrem : (length data - q * n < n)%nat).
  { unfold q. pose proof (Nat.div_mod_eq (length data) n).
    pose proof (Nat.mod_upper_bound (length data) n). lia. }
  destruct (read_chunks_whole q (S (length data)) (firstn (q * n) data)
              (skipn (q * n) data) buffer EVP_DigestInit_ex 0%nat)
    as (buffer' & Hrun & Hfront).
  { rewrite length_take. lia. }
  { rewrite length_drop. lia. }
  { destruct (decide (n = 1%nat)); nia. }
  rewrite take_drop in Hrun. rewrite Hrun. cbn.
  unfold EVP_DigestUpdate, EVP_DigestFinal_ex, EVP_DigestInit_ex, sha256_hex.
  rewrite Hfront. cbn [app]. rewrite take_drop. reflexivity.
Qed.
End ReadLoop.

Lemma calculateSha256_readable (fs : gmap string regular_file) (path : string) (f : regular_file) :
  fs !! path = Some f -> readable f ->
  calculateSha256 fs path = Returned (sha256_hex (content f)).
Proof. apply digest_file_readable, chunk_size_pos. Qed.

(** A path that names no file cannot be opened: the first read fails
    without end-of-file. *)
Lemma calculateSha256_missing (fs : gmap string regular_file) (path : string) :
  fs !! path = None -> calculateSha256 fs path = Thrown (read_error path).
Proof.
  intros Hf. unfold calculateSha256, digest_file, ifstream_open. rewrite Hf.
  reflexivity.
Qed.

(** Whatever the file, the loop is granted enough fuel: [digest_file]
    never falls back on its out-of-fuel branch. *)
Lemma calculateSha256_fuel (fs : gmap string regular_file) (path : string) :
  is_Some (read_chunks (S (length (pending (ifstream_open fs path)))) CHUNK_SIZE
                       (ifstream_open fs path) (repeat x00 CHUNK_SIZE)
                       EVP_DigestInit_ex).
Proof. apply read_chunks_total; [apply chunk_size_pos | lia]. Qed.

(** The loop at a chunk size of four on a file of eight bytes: two whole
    reads, then a read of nothing at end-of-file. The buffer still holds
    the second chunk, and none of it is hashed again. *)
Example read_chunks_two_whole_chunks :
  read_chunks 9 4 (ifstream_open {[ "f"%string := File (bytes_of_string "abcdefgh") 0 None ]} "f")
              (bytes_of_string "????") EVP_DigestInit_ex
  = Some (Ifstream [] None true true false 0, bytes_of_string "efgh",
          bytes_of_string "abcdefgh")
  /\ digest_file 4 (bytes_of_string "????")
                 {[ "f"%string := File (bytes_of_string "abcdefgh") 0 None ]} "f"
     = Returned (sha256_hex (bytes_of_string "abcdefgh")).
Proof. split; vm_compute; reflexivity. Qed.

(** A device fault before end-of-file is a read error. *)
Example digest_read_fault :
  calculateSha256 {[ "f"%string := File (bytes_of_string "abc") 0 (Some 1%nat) ]} "f"
  = Thrown (read_error "f").
Proof. vm_compute. reflexivity. Qed.

(** C8. The digest is deterministic: two readable files with the same bytes,
    wherever they are and whatever their permissions, get the same digest
    string, and that string is the 64-character lower-case hexadecimal
    encoding of the SHA-256 of the bytes. *)
Theorem digest_deterministic (fs1 fs2 : gmap string regular_file) (p1 p2 : string)
    (f1 f2 : regular_file) :
  fs1 !! p1 = Some f1 -> fs2 !! p2 = Some f2 ->
  readable f1 -> readable f2 ->
  content f1 = content f2 ->
  calculateSha256 fs1 p1 = calculateSha256 fs2 p2
  /\ calculateSha256 fs1 p1 = Returned (sha256_hex (content f1))
  /\ String.length (sha256_hex (content f1)) = 64%nat
  /\ string_forallb lower_hex_char (sha256_hex (content f1)) = true.
Proof.
  intros H1 H2 R1 R2 Hc.
  rewrite (calculateSha256_readable _ _ _ H1 R1).
  rewrite (calculateSha256_readable _ _ _ H2 R2).
  rewrite Hc. split; [reflexivity|]. split; [reflexivity|]. split.
  - apply sha256_hex_length.
  - apply lower_hex_digest.
Qed.

Lemma digest_deterministic_witness :
  let a := File (bytes_of_string "abc") 0x1e8 None in
  let b := File (bytes_of_string "abc") 0x1a4 None in
  calculateSha256 {[ "/cache/init.rb"%string := a ]} "/cache/init.rb"
  = calculateSha256 {[ "/tmp/copy"%string := b; "/tmp/other"%string := a ]} "/tmp/copy"
  /\ calculateSha256 {[ "/cache/init.rb"%string := a ]} "/cache/init.rb"
     = Returned (sha256_hex (bytes_of_string "abc"))
  /\ String.length (sha256_hex (bytes_of_string "abc")) = 64%nat
  /\ string_forallb lower_hex_char (sha256_hex (bytes_of_string "abc")) = true.
Proof.
  intros a b.
  apply (digest_deterministic
           {[ "/cache/init.rb"%string := a ]}
           {[ "/tmp/copy"%string := b; "/tmp/other"%string := a ]}
           "/cache/init.rb" "/tmp/copy" a b);
    reflexivity.
Defined.

(** C10. On a readable file whose length is zero or a multiple of the chunk
    size, the loop ends at end-of-file with every byte already hashed and
    [gcount] zero, so the last update adds nothing; no read error is
    raised and the digest is that of exactly the file's bytes. *)
Theorem digest_whole_chunks (fs : gmap string regular_file) (path : string) (f : regular_file) :
  fs !! path = Some f ->
  readable f ->
  (length (content f) mod CHUNK_SIZE = 0)%nat ->
  calculateSha256 fs path = Returned (sha256_hex (content f))
  /\ exists ifs buffer,
       read_chunks (S (length (content f))) CHUNK_SIZE (ifstream_open fs path)
                   (repeat x00 CHUNK_SIZE) EVP_DigestInit_ex
       = Some (ifs, buffer, content f)
       /\ eof ifs = true
       /\ gcount ifs = 0%nat
       /\ EVP_DigestUpdate (content f) buffer (gcount ifs) = content f.
Proof.
  intros Hf Hr Hmod. split; [exact (calculateSha256_readable _ _ _ Hf Hr)|].
  pose proof chunk_size_pos as Hpos.
  set (q := (length (content f) / CHUNK_SIZE)%nat).
  assert (Hlen : length (content f) = (q * CHUNK_SIZE)%nat).
  { unfold q. pose proof (Nat.div_mod_eq (length (content f)) CHUNK_SIZE). lia. }
  destruct (read_chunks_whole CHUNK_SIZE Hpos q (S (length (content f)))
              (content f) [] (repeat x00 CHUNK_SIZE) EVP_DigestInit_ex 0%nat)
    as (buffer & Hrun & _).
  { exact Hlen. }
  { cbn. lia. }
  { destruct (decide (CHUNK_SIZE = 1%nat)); nia. }
  rewrite app_nil_r in Hrun.
  unfold ifstream_open. rewrite Hf, Hr.
  eexists _, buffer. split; [exact Hrun|].
  cbn. unfold EVP_DigestUpdate. cbn. rewrite app_nil_r. auto.
Qed.

Lemma digest_whole_chunks_witness :
  let f := File (repeat x00 CHUNK_SIZE) 0x1e8 None in
  calculateSha256 {[ "f"%string := f ]} "f" = Returned (sha256_hex (content f))
  /\ exists ifs buffer,
       read_chunks (S (length (content f))) CHUNK_SIZE
                   (ifstream_open {[ "f"%string := f ]} "f")
                   (repeat x00 CHUNK_SIZE) EVP_DigestInit_ex
       = Some (ifs, buffer, content f)
       /\ eof ifs = true
       /\ gcount ifs = 0%nat
       /\ EVP_DigestUpdate (content f) buffer (gcount ifs) = content f.
Proof.
  intros f.
  apply (digest_whole_chunks {[ "f"%string := f ]} "f" f).
  - reflexivity.
  - reflexivity.
  - vm_compute. reflexivity.
Defined.

(** ** The endpoint *)

Section Strings.
Implicit Types s t u : string.

Lemma append_cons c s t : String c s +:+ t = String c (s +:+ t).
Proof. reflexivity. Qed.

Lemma append_nil_l s : "" +:+ s = s.
Proof. reflexivity. Qed.

Lemma append_nil_r s : s +:+ "" = s.
Proof.
  induction s as [|c s IH]; [reflexivity|]. rewrite append_cons. congruence.
Qed.

Lemma append_assoc s t u : (s +:+ t) +:+ u = s +:+ (t +:+ u).
Proof.
  induction s as [|c s IH]; [reflexivity|]. rewrite !append_cons. congruence.
Qed.

Lemma count_char_app c s t :
  count_char c (s +:+ t) = (count_char c s + count_char c t)%nat.
Proof.
  induction s as [|d s IH]; [reflexivity|].
  rewrite append_cons. cbn [count_char]. rewrite IH. lia.
Qed.

Lemma last_char_app s t : t <> "" -> last_char (s +:+ t) = last_char t.
Proof.
  intros Ht. induction s as [|c s IH]; [reflexivity|].
  rewrite append_cons. cbn [last_char]. rewrite IH.
  destruct (s +:+ t) eqn:E; [|reflexivity].
  destruct s; [|discriminate]. rewrite append_nil_l in E. congruence.
Qed.

Lemma last_char_counted s c : last_char s = Some c -> (0 < count_char c s)%nat.
Proof.
  induction s as [|d s IH]; [discriminate|].
  cbn [last_char count_char]. destruct s as [|e s].
  - intros [= ->]. rewrite bool_decide_eq_true_2 by reflexivity. lia.
  - intros Hl. specialize (IH Hl). lia.
Qed.

Lemma pop_back_app s c : pop_back (s +:+ String c "") = s.
Proof.
  induction s as [|d s IH]; [reflexivity|].
  rewrite append_cons. cbn [pop_back]. rewrite IH.
  destruct (s +:+ String c "") eqn:E; [|reflexivity].
  destruct s; discriminate.
Qed.
End Strings.

Lemma fold_left_pairs (kvs : list (string * string)) (ks : list string) (url : string) :
  fold_left
    (fun url key =>
       let escaped_key := curl_escaped_string key in
       let escaped_val := curl_escaped_string (params_get kvs key) in
       url +:+ (escaped_key +:+ "=" +:+ escaped_val +:+ "&"))
    ks url
  = url +:+ pairs_with_ampersands
              (map (fun k => escaped_pair (k, params_get kvs k)) ks).
Proof.
  revert url. induction ks as [|k ks IH]; intros url; cbn [fold_left map].
  - cbn. rewrite append_nil_r. reflexivity.
  - rewrite IH. cbn [pairs_with_ampersands]. unfold escaped_pair. cbn [fst snd].
    rewrite !append_assoc. reflexivity.
Qed.

Lemma pairs_with_ampersands_join (l : list string) :
  l <> [] -> pairs_with_ampersands l = join_with "&" l +:+ "&".
Proof.
  induction l as [|x l IH]; [congruence|]. intros _.
  destruct l as [|y l].
  - cbn. rewrite append_nil_r. reflexivity.
  - cbn [pairs_with_ampersands join_with] in *. rewrite IH by congruence.
    rewrite !append_assoc. reflexivity.
Qed.

(** Escaping leaves no character that structures the query. *)
Lemma hex_digit_plain (n : N) : structural (hex_digit n) = false.
Proof.
  unfold hex_digit. generalize (N.to_nat n) as k. intros k.
  do 16 (destruct k as [|k]; [reflexivity|]). reflexivity.
Qed.

Lemma unreserved_plain (c : ascii) : unreserved c = true -> structural c = false.
Proof.
  destruct c as [[] [] [] [] [] [] [] []]; vm_compute; congruence.
Qed.

Lemma count_char_cons (c d : ascii) (s : string) :
  d <> c -> count_char c (String d s) = count_char c s.
Proof. intros Hd. cbn [count_char]. rewrite bool_decide_eq_false_2 by exact Hd. lia. Qed.

Lemma structural_neq (c d : ascii) : structural c = true -> structural d = false -> d <> c.
Proof. intros Hc Hd ->. congruence. Qed.

Lemma escaped_plain (c : ascii) (s : string) :
  structural c = true -> count_char c (curl_escaped_string s) = 0%nat.
Proof.
  intros Hc. induction s as [|d s IH]; [reflexivity|].
  cbn [curl_escaped_string]. destruct (unreserved d) eqn:Hd.
  - rewrite count_char_cons; [exact IH|].
    apply (structural_neq c d Hc), unreserved_plain, Hd.
  - rewrite !count_char_cons; [exact IH| | |].
    + apply (structural_neq c _ Hc), hex_digit_plain.
    + apply (structural_neq c _ Hc), hex_digit_plain.
    + apply (structural_neq c _ Hc). reflexivity.
Qed.

Lemma escaped_pair_plain (c : ascii) (kv : string * string) :
  c = "?"%char \/ c = "&"%char -> count_char c (escaped_pair kv) = 0%nat.
Proof.
  intros Hc. unfold escaped_pair.
  assert (Hs : structural c = true) by (destruct Hc as [->| ->]; reflexivity).
  rewrite !count_char_app, !(escaped_plain c _ Hs).
  destruct Hc as [->| ->]; reflexivity.
Qed.

Lemma escaped_pair_last (kv : string * string) : last_char (escaped_pair kv) <> Some "&"%char.
Proof.
  intros Hl. apply last_char_counted in Hl.
  rewrite escaped_pair_plain in Hl by auto. lia.
Qed.

Lemma escaped_pair_nonempty (kv : string * string) : escaped_pair kv <> ""%string.
Proof.
  unfold escaped_pair. destruct (curl_escaped_string kv.1); discriminate.
Qed.

Section Join.
Variable f : string -> string * string.
Local Notation "'pairs' ks" := (map (fun k => escaped_pair (f k)) ks)
  (at level 10, ks at level 9, only parsing).

Lemma join_no_question (ks : list string) :
  count_char "?" (join_with "&" (pairs ks)) = 0%nat.
Proof.
  induction ks as [|k ks IH]; [reflexivity|].
  destruct ks as [|k' ks]; cbn [map join_with] in *.
  - apply escaped_pair_plain; auto.
  - rewrite !count_char_app, IH, escaped_pair_plain by auto. reflexivity.
Qed.

Lemma join_ampersands (ks : list string) :
  count_char "&" (join_with "&" (pairs ks)) = (length ks - 1)%nat.
Proof.
  induction ks as [|k ks IH]; [reflexivity|].
  destruct ks as [|k' ks]; cbn [map join_with length] in *.
  - apply escaped_pair_plain; auto.
  - rewrite !count_char_app, IH, escaped_pair_plain by auto.
    cbn [count_char]. rewrite bool_decide_eq_true_2 by reflexivity. lia.
Qed.

Lemma join_last (ks : list string) :
  last_char (join_with "&" (pairs ks)) <> Some "&"%char.
Proof.
  induction ks as [|k ks IH]; [discriminate|].
  destruct ks as [|k' ks]; cbn [map join_with] in *.
  - apply escaped_pair_last.
  - rewrite <- append_assoc, last_char_app; [exact IH|].
    destruct ks; cbn [map join_with]; [apply escaped_pair_nonempty|].
    intros E. destruct (escaped_pair (f k')) eqn:E'; [|discriminate].
    exact (escaped_pair_nonempty _ E').
Qed.
End Join.

(** Where no key occurs twice, [get] returns the value listed with the key. *)
Lemma params_get_listed (kvs : list (string * string)) :
  NoDup (keys kvs) ->
  map (fun k => escaped_pair (k, params_get kvs k)) (keys kvs) = map escaped_pair kvs.
Proof.
  intros Hnd.
  assert (Hget : forall k v, (k, v) ∈ kvs -> params_get kvs k = v).
  { induction kvs as [|[k0 v0] kvs IH]; intros k v Hin; [by apply elem_of_nil in Hin|].
    unfold keys in Hnd. cbn [fmap list_fmap fst] in Hnd.
    apply NoDup_cons in Hnd as [Hfresh Hnd].
    cbn [params_get]. apply elem_of_cons in Hin as [[= -> ->]|Hin].
    - rewrite bool_decide_eq_true_2; reflexivity.
    - rewrite bool_decide_eq_false_2; [apply IH; assumption|].
      intros ->. apply Hfresh. apply list_elem_of_fmap. exists (k, v). auto. }
  unfold keys. rewrite <- list_fmap_compose.
  apply list_fmap_ext. intros i [k v] Hi. cbn.
  rewrite (Hget k v); [reflexivity|]. eapply list_elem_of_lookup_2, Hi.
Qed.

(** C7. Without parameters the endpoint is the path itself. With
    parameters it is the path, one question mark, and the escaped
    key=value pairs with an ampersand between each two: the query holds
    no further question mark, one ampersand fewer than pairs, and the
    endpoint does not end in an ampersand. *)
Theorem createUrlEndpoint_query (path : string)
    (params : option (list (string * string))) :
  let kvs := default [] params in
  createUrlEndpoint (Uri path params)
  = (if bool_decide (kvs = []) then path else path +:+ "?" +:+ query_of kvs)
  /\ count_char "?" (query_of kvs) = 0%nat
  /\ count_char "&" (query_of kvs) = (length kvs - 1)%nat
  /\ (kvs <> [] -> last_char (createUrlEndpoint (Uri path params)) <> Some "&"%char)
  /\ (NoDup (keys kvs) -> query_of kvs = join_with "&" (map escaped_pair kvs)).
Proof.
  intros kvs.
  assert (Heq : createUrlEndpoint (Uri path params)
                = if bool_decide (kvs = []) then path else path +:+ "?" +:+ query_of kvs).
  { unfold createUrlEndpoint. cbn [uri_path uri_params]. fold kvs.
    case_bool_decide as Hkvs; [reflexivity|].
    rewrite fold_left_pairs, pairs_with_ampersands_join.
    - rewrite <- !append_assoc. rewrite pop_back_app.
      unfold query_of. rewrite !append_assoc. reflexivity.
    - unfold keys. destruct kvs; [congruence | discriminate]. }
  split; [exact Heq|]. split; [apply join_no_question|].
  split; [unfold query_of, keys; rewrite join_ampersands, length_fmap; reflexivity|].
  split.
  - intros Hkvs. rewrite Heq, bool_decide_eq_false_2 by exact Hkvs.
    rewrite <- append_assoc, last_char_app; [apply join_last|].
    unfold query_of, keys. destruct kvs as [|[k v] kvs]; [congruence|].
    cbn [fmap list_fmap map join_with].
    destruct (fst <$> kvs); cbn [map join_with]; [apply escaped_pair_nonempty|].
    intros E. destruct (escaped_pair _) eqn:E' in E; [|discriminate].
    exact (escaped_pair_nonempty _ E').
  - intros Hnd. unfold query_of. rewrite params_get_listed by exact Hnd. reflexivity.
Qed.

(** The scenario of the two parameters [b] and [a]. *)
Lemma createUrlEndpoint_query_witness :
  createUrlEndpoint (Uri "/tasks/run" (Some [("b", "2"); ("a", "1")]%string))
  = "/tasks/run?b=2&a=1"%string
  /\ query_of [("b", "2"); ("a", "1")]%string
     = join_with "&" (map escaped_pair [("b", "2"); ("a", "1")]%string).
Proof.
  destruct (createUrlEndpoint_query "/tasks/run" (Some [("b", "2"); ("a", "1")]%string))
    as (Heq & _ & _ & _ & Hjoin).
  split; [exact Heq|]. apply Hjoin.
  apply (bool_decide_unpack _). vm_compute. exact I.
Defined.

Example createUrlEndpoint_escapes :
  createUrlEndpoint (Uri "/x" (Some [("a b", "1/2&?"); ("k", "")]%string))
  = "/x?a%20b=1%2F2%26%3F&k="%string.
Proof. reflexivity. Qed.

(** ** The loop over the master-uris *)

Section DownloaderFacts.
Context `{Collaborators}.
Variables (endpoint : string) (connect_timeout_s timeout_s : Z) (file_path : string).

Local Notation "'try_' m" :=
  (try_master_uri m endpoint connect_timeout_s timeout_s file_path)
  (at level 10, m at level 9, only parsing).
Local Notation "'loop' l" :=
  (for_master_uris l endpoint connect_timeout_s timeout_s file_path)
  (at level 10, l at level 9, only parsing).
Local Notation "'req_for' m" :=
  (request_for m endpoint connect_timeout_s timeout_s)
  (at level 10, m at level 9, only parsing).

(** One attempt, by the class of what the client did. *)
Lemma try_master_uri_cases (m : string) (result : bool * string) (w : world)
    (r : download_result) (fs' : gmap string regular_file) (c' : client) :
  download_file (curl w) (req_for m) file_path NIX_TASK_FILE_PERMS (files w)
    = (r, fs', c') ->
  try_ m result w =
    match fatal r, mirror_local (m +:+ endpoint) r with
    | Some what, _ =>
        (Thrown (fatal_error what),
         World fs' c' (requests w ++ [req_for m]) (warnings w))
    | None, Some what =>
        (Returned (fst result, what),
         World fs' c' (requests w ++ [req_for m])
               (warnings w ++ [warning_message m what]))
    | None, None =>
        (Returned result, World fs' c' (requests w ++ [req_for m]) (warnings w))
    end.
Proof.
  intros Hdl. unfold try_master_uri, bind, client_download_file.
  unfold request_for in Hdl. rewrite Hdl.
  destruct r as [resp|what|what]; cbn.
  - destruct (400 <=? status_code resp); reflexivity.
  - reflexivity.
  - reflexivity.
Qed.

Lemma try_master_uri_ok (m : string) (result r1 : bool * string) (w w1 : world) :
  try_ m result w = (Returned r1, w1) ->
  fst r1 = fst result
  /\ requests w1 = requests w ++ [req_for m]
  /\ (warnings w1 = warnings w /\ r1 = result
      \/ warnings w1 = warnings w ++ [warning_message m (snd r1)]).
Proof.
  destruct (download_file (curl w) (req_for m) file_path NIX_TASK_FILE_PERMS (files w))
    as [[r fs'] c'] eqn:Hdl.
  rewrite (try_master_uri_cases m result w r fs' c' Hdl).
  destruct (fatal r); [discriminate|].
  destruct (mirror_local (m +:+ endpoint) r); intros [= <- <-]; cbn; auto.
Qed.

Lemma for_master_uris_cons (m : string) (rest : list string)
    (result : bool * string) (w : world) :
  loop (m :: rest) result w =
    match try_ m result w with
    | (Returned r1, w1) =>
        if bool_decide (is_Some (files w1 !! file_path))
        then (Returned (true, snd r1), w1)
        else loop rest r1 w1
    | (Thrown e, w1) => (Thrown e, w1)
    end.
Proof.
  cbn [for_master_uris]. unfold bind at 1.
  destruct (try_master_uri _ _ _ _ _ _ _) as [[r1|e] w1]; [|reflexivity].
  unfold bind, fs_exists. destruct (bool_decide _); reflexivity.
Qed.

(** A run that exhausts its list is the run of the loop on that list. *)
Lemma exhausted_loop (l : list string) (r r' : bool * string) (w w' : world) :
  exhausted endpoint connect_timeout_s timeout_s file_path l r w r' w' ->
  loop l r w = (Returned r', w') /\ fst r' = fst r
  /\ requests w' = requests w ++ map (fun m => req_for m) l.
Proof.
  induction 1 as [r w|m rest r w r1 w1 r2 w2 Htry Habsent _ (IHrun & IHfst & IHreq)].
  - cbn. rewrite app_nil_r. auto.
  - rewrite for_master_uris_cons, Htry.
    rewrite bool_decide_eq_false_2 by (rewrite Habsent; apply is_Some_None).
    destruct (try_master_uri_ok _ _ _ _ _ Htry) as (Hfst & Hreq & _).
    split; [exact IHrun|]. split; [congruence|].
    rewrite IHreq, Hreq. cbn [map]. rewrite <- app_assoc. reflexivity.
Qed.

(** After an exhausted prefix the loop goes on with what follows. *)
Lemma exhausted_app (pre l : list string) (r r' : bool * string) (w w' : world) :
  exhausted endpoint connect_timeout_s timeout_s file_path pre r w r' w' ->
  loop (pre ++ l) r w = loop l r' w'.
Proof.
  induction 1 as [r w|m rest r w r1 w1 r2 w2 Htry Habsent _ IH]; [reflexivity|].
  cbn [app]. rewrite for_master_uris_cons, Htry.
  rewrite bool_decide_eq_false_2 by (rewrite Habsent; apply is_Some_None).
  exact IH.
Qed.

(** The message of the result is the one of the last warning written
    during the run, or the initial one when none was written. *)
Lemma loop_last_message (l : list string) :
  forall r w r' w',
    loop l r w = (Returned r', w') ->
    exists news,
      warnings w' = warnings w ++ news
      /\ (news = [] /\ snd r' = snd r
          \/ exists m, m ∈ l /\ last news = Some (warning_message m (snd r'))).
Proof.
  induction l as [|m l IH]; intros r w r' w' Hrun.
  - cbn in Hrun. injection Hrun as <- <-. exists []. rewrite app_nil_r. auto.
  - rewrite for_master_uris_cons in Hrun.
    destruct (try_ m r w) as [[r1|e] w1] eqn:Htry; [|discriminate].
    destruct (try_master_uri_ok _ _ _ _ _ Htry) as (_ & _ & Hlog).
    destruct (bool_decide (is_Some (files w1 !! file_path))).
    + injection Hrun as <- <-. cbn [snd].
      destruct Hlog as [[Hw ->]|Hw].
      * exists []. rewrite app_nil_r. auto.
      * exists [warning_message m (snd r1)]. split; [exact Hw|].
        right. exists m. split; [apply list_elem_of_here | reflexivity].
    + destruct (IH _ _ _ _ Hrun) as (news & Hnews & Hlast).
      destruct Hlog as [[Hw ->]|Hw].
      * exists news. split; [congruence|].
        destruct Hlast as [?|(m' & Hin & Hl)]; [auto|].
        right. exists m'. split; [apply list_elem_of_further, Hin | exact Hl].
      * exists (warning_message m (snd r1) :: news).
        split; [rewrite Hnews, Hw, <- app_assoc; reflexivity|].
        right. destruct Hlast as [[-> Hsnd]|(m' & Hin & Hl)].
        -- exists m. split; [apply list_elem_of_here|]. cbn. congruence.
        -- exists m'. split; [apply list_elem_of_further, Hin|].
           rewrite last_cons, Hl. reflexivity.
Qed.
End DownloaderFacts.

(** ** The fallback downloader *)

Section FallbackDownloader.
Context `{Collaborators}.
Variables (connect_timeout_s timeout_s : Z) (file_path : string) (uri : uri_t).

Local Abbreviation endpoint := (createUrlEndpoint uri).
Local Notation "'req_for' m" :=
  (request_for m endpoint connect_timeout_s timeout_s)
  (at level 10, m at level 9, only parsing).
Local Abbreviation ran_through :=
  (exhausted endpoint connect_timeout_s timeout_s file_path).

(** C4. When the attempt on a master-uri ends in the fatal class (the
    client throws an [http_request_exception] other than the download
    one), the call throws a [ProcessingError] carrying its message at
    once: the request for that master-uri is the last one made, and
    the master-uris listed after it play no part. *)
Theorem fatal_failure_aborts (pre post : list string) (m : string)
    (w w1 : world) (r1 : bool * string)
    (r : download_result) (fs' : gmap string regular_file) (c' : client) (what : string) :
  ran_through pre (false, ""%string) w r1 w1 ->
  download_file (curl w1) (req_for m) file_path NIX_TASK_FILE_PERMS (files w1)
    = (r, fs', c') ->
  fatal r = Some what ->
  downloadFileWithCurl (pre ++ m :: post) connect_timeout_s timeout_s file_path uri w
  = (Thrown (fatal_error what),
     World fs' c' (requests w ++ map (fun m => req_for m) pre ++ [req_for m]) (warnings w1)).
Proof.
  intros Hpre Hdl Hfatal. unfold downloadFileWithCurl.
  rewrite (exhausted_app _ _ _ _ _ _ _ _ _ _ Hpre).
  rewrite for_master_uris_cons.
  rewrite (try_master_uri_cases _ _ _ _ _ _ _ _ _ _ Hdl), Hfatal.
  destruct (exhausted_loop _ _ _ _ _ _ _ _ _ Hpre) as (_ & _ & ->).
  rewrite <- app_assoc. reflexivity.
Qed.

(** C5. A mirror-local failure of the attempt on a master-uri writes a
    warning that names the master-uri, stores its message in the result,
    and does not throw: the loop goes on. What follows is the check for
    the file that follows every attempt; with no file under the name,
    as after a failed attempt on the fresh temporary name, the loop
    proceeds to the next master-uri with the message stored. *)
Theorem mirror_local_failure_is_survived (m : string) (rest : list string)
    (result : bool * string) (w : world)
    (r : download_result) (fs' : gmap string regular_file) (c' : client) (what : string) :
  download_file (curl w) (req_for m) file_path NIX_TASK_FILE_PERMS (files w)
    = (r, fs', c') ->
  mirror_local (m +:+ endpoint) r = Some what ->
  let w1 := World fs' c' (requests w ++ [req_for m])
                  (warnings w ++ [warning_message m what]) in
  try_master_uri m endpoint connect_timeout_s timeout_s file_path result w
    = (Returned (fst result, what), w1)
  /\ occurs_in m (warning_message m what)
  /\ for_master_uris (m :: rest) endpoint connect_timeout_s timeout_s file_path result w
     = (if bool_decide (is_Some (fs' !! file_path))
        then (Returned (true, what), w1)
        else for_master_uris rest endpoint connect_timeout_s timeout_s file_path
                             (fst result, what) w1)
  /\ (fs' !! file_path = None ->
      for_master_uris (m :: rest) endpoint connect_timeout_s timeout_s file_path result w
      = for_master_uris rest endpoint connect_timeout_s timeout_s file_path
                        (fst result, what) w1).
Proof.
  intros Hdl Hlocal w1.
  assert (Htry : try_master_uri m endpoint connect_timeout_s timeout_s file_path result w
                 = (Returned (fst result, what), w1)).
  { rewrite (try_master_uri_cases _ _ _ _ _ _ _ _ _ _ Hdl), Hlocal.
    destruct r; cbn in *; first [discriminate | reflexivity]. }
  split; [exact Htry|]. split; [|split].
  - eexists _, _. unfold warning_message. reflexivity.
  - rewrite for_master_uris_cons, Htry. reflexivity.
  - intros Habsent. rewrite for_master_uris_cons, Htry.
    subst w1. cbn [files].
    rewrite bool_decide_eq_false_2 by (rewrite Habsent; apply is_Some_None).
    reflexivity.
Qed.

(** C6. Once the loop has run through some master-uris without the file
    coming to exist, the call on just those returns [false] with the
    message of the last warning written (the empty message if there
    was none); and if the attempt on one more master-uri completes
    with the file in place, the call returns [true] right there,
    whatever master-uris follow. *)
Theorem exists_decides (pre : list string) (w w1 : world) (r1 : bool * string) :
  ran_through pre (false, ""%string) w r1 w1 ->
  downloadFileWithCurl pre connect_timeout_s timeout_s file_path uri w
    = (Returned (false, snd r1), w1)
  /\ requests w1 = requests w ++ map (fun m => req_for m) pre
  /\ (exists news,
        warnings w1 = warnings w ++ news
        /\ (news = [] /\ snd r1 = ""%string
            \/ exists m, m ∈ pre /\ last news = Some (warning_message m (snd r1))))
  /\ forall m post r2 w2,
       try_master_uri m endpoint connect_timeout_s timeout_s file_path r1 w1
         = (Returned r2, w2) ->
       is_Some (files w2 !! file_path) ->
       downloadFileWithCurl (pre ++ m :: post) connect_timeout_s timeout_s file_path uri w
         = (Returned (true, snd r2), w2).
Proof.
  intros Hpre.
  destruct (exhausted_loop _ _ _ _ _ _ _ _ _ Hpre) as (Hrun & Hfst & Hreq).
  cbn [fst] in Hfst.
  assert (Hr1 : r1 = (false, snd r1)) by (destruct r1; cbn in *; congruence).
  split; [unfold downloadFileWithCurl; rewrite Hrun, <- Hr1; reflexivity|].
  split; [exact Hreq|]. split.
  - destruct (loop_last_message _ _ _ _ _ _ _ _ _ Hrun) as (news & Hnews & Hlast).
    exists news. split; [exact Hnews | exact Hlast].
  - intros m post r2 w2 Htry Hthere. unfold downloadFileWithCurl.
    rewrite (exhausted_app _ _ _ _ _ _ _ _ _ _ Hpre).
    rewrite for_master_uris_cons, Htry.
    rewrite bool_decide_eq_true_2 by exact Hthere. reflexivity.
Qed.
End FallbackDownloader.

(** ** The cache installer *)

Lemma scripted_writes_only_target (script : string -> reply) (fresh : string) :
  @writes_only_target (scripted script fresh).
Proof.
  intros c req p prms fs q Hq. cbn. unfold scripted_download.
  destruct (script (url req)) as [status payload|what|what]; [|reflexivity..].
  destruct (400 <=? status); [reflexivity|]. cbn.
  apply lookup_insert_ne. congruence.
Qed.

Section InstallerFacts.
Context `{Collaborators}.

Lemma try_master_uri_frame (m endpoint : string) (ct t : Z) (file_path : string)
    (result : bool * string) (w w1 : world) (o : outcome (bool * string)) (q : string) :
  writes_only_target -> q <> file_path ->
  try_master_uri m endpoint ct t file_path result w = (o, w1) ->
  files w1 !! q = files w !! q.
Proof.
  intros Hframe Hq.
  destruct (download_file (curl w) (request_for m endpoint ct t) file_path
              NIX_TASK_FILE_PERMS (files w)) as [[r fs'] c'] eqn:Hdl.
  rewrite (try_master_uri_cases _ _ _ _ _ _ _ _ _ _ Hdl).
  pose proof (Hframe (curl w) (request_for m endpoint ct t) file_path
                NIX_TASK_FILE_PERMS (files w) q Hq) as Hq'.
  rewrite Hdl in Hq'. cbn in Hq'.
  destruct (fatal r); [|destruct (mirror_local _ r)]; intros [= <- <-]; exact Hq'.
Qed.

Lemma for_master_uris_frame (l : list string) (endpoint : string) (ct t : Z)
    (file_path : string) (q : string) :
  writes_only_target -> q <> file_path ->
  forall result w o w1,
    for_master_uris l endpoint ct t file_path result w = (o, w1) ->
    files w1 !! q = files w !! q.
Proof.
  intros Hframe Hq. induction l as [|m l IH]; intros result w o w1 Hrun.
  - cbn in Hrun. injection Hrun as <- <-. reflexivity.
  - rewrite for_master_uris_cons in Hrun.
    destruct (try_master_uri m endpoint ct t file_path result w) as [o' w'] eqn:Htry.
    pose proof (try_master_uri_frame _ _ _ _ _ _ _ _ _ _ Hframe Hq Htry) as Hw'.
    destruct o' as [r1|e].
    + destruct (bool_decide _).
      * injection Hrun as <- <-. exact Hw'.
      * rewrite (IH _ _ _ _ Hrun). exact Hw'.
    + injection Hrun as <- <-. exact Hw'.
Qed.

Variables (connect_timeout timeout : Z) (cache_dir destination : string)
          (file : task_file).

(** The fast path: a destination that holds the expected digest is
    given the permissions and returned. *)
Lemma fast_path (master_uris : list string) (w : world) (f : regular_file) :
  files w !! destination = Some f ->
  calculateSha256 (files w) destination = Returned (file_sha256 file) ->
  downloadFileFromMaster master_uris connect_timeout timeout cache_dir destination
                         file w
  = (Returned destination,
     set_files (<[destination := File (content f) NIX_TASK_FILE_PERMS (read_fault f)]>
                  (files w)) w).
Proof.
  intros Hf Hd. unfold downloadFileFromMaster, bind, fs_exists, digest, ret.
  rewrite bool_decide_eq_true_2 by (rewrite Hf; eauto).
  rewrite Hd. rewrite bool_decide_eq_true_2 by reflexivity.
  unfold fs_permissions. rewrite Hf. reflexivity.
Qed.

(** Past the fast path: what the function does on a cache miss. *)
Lemma slow_path (master_uris : list string) (w : world) :
  cache_miss (files w) destination (file_sha256 file) ->
  downloadFileFromMaster master_uris connect_timeout timeout cache_dir destination
                         file w
  = if bool_decide (master_uris = []) then (Thrown no_master_uris, w)
    else
      match downloadFileWithCurl master_uris connect_timeout timeout
                                 (tempname_in cache_dir) (file_uri file) w with
      | (Thrown e, w1) => (Thrown e, w1)
      | (Returned download_result, w1) =>
          if negb (fst download_result)
          then (Thrown (all_master_uris_failed (file_filename file)
                                               (snd download_result)), w1)
          else
            match calculateSha256 (files w1) (tempname_in cache_dir) with
            | Thrown e => (Thrown e, w1)
            | Returned d =>
                if bool_decide (file_sha256 file = d)
                then match fs_rename (tempname_in cache_dir) destination w1 with
                     | (Returned _, w2) => (Returned destination, w2)
                     | (Thrown e, w2) => (Thrown e, w2)
                     end
                else (Thrown (sha_differs (path_filename (file_filename file))),
                      set_files (delete (tempname_in cache_dir) (files w1)) w1)
            end
      end.
Proof.
  intros Hmiss.
  assert (Htest :
    (if bool_decide (is_Some (files w !! destination))
     then match calculateSha256 (files w) destination with
          | Returned d => (Returned (bool_decide (file_sha256 file = d)), w)
          | Thrown e => (Thrown e, w)
          end
     else (Returned false, w)) = (Returned false, w)).
  { destruct Hmiss as [Hnone|(d & Hd & Hne)].
    - rewrite bool_decide_eq_false_2 by (rewrite Hnone; apply is_Some_None).
      reflexivity.
    - destruct (bool_decide (is_Some (files w !! destination))); [|reflexivity].
      rewrite Hd. rewrite bool_decide_eq_false_2 by congruence. reflexivity. }
  unfold downloadFileFromMaster, bind, fs_exists, digest, ret, throw.
  destruct (bool_decide (is_Some (files w !! destination)));
    [destruct (calculateSha256 (files w) destination) as [d0|e0];
     [injection Htest as Htest; rewrite Htest; clear Htest | discriminate]
    |clear Htest];
    (destruct (bool_decide (master_uris = [])); [reflexivity|];
     destruct (downloadFileWithCurl _ _ _ _ _ w) as [[download_result|e] w1];
       [|reflexivity];
     destruct (negb (fst download_result)); [reflexivity|];
     destruct (calculateSha256 (files w1) _) as [d|e]; [|reflexivity];
     destruct (bool_decide (file_sha256 file = d)); cbn [negb]; [|reflexivity];
     unfold fs_rename; destruct (files w1 !! tempname_in cache_dir); reflexivity).
Qed.
End InstallerFacts.

Lemma calculateSha256_throws (fs : gmap string regular_file) (path : string) (e : exn) :
  calculateSha256 fs path = Thrown e -> e = read_error path.
Proof.
  unfold calculateSha256, digest_file.
  destruct (read_chunks _ _ _ _ _) as [[[ifs buffer] mdctx]|]; [|congruence].
  destruct (negb (eof ifs)); congruence.
Qed.

Section CacheInstaller.
Context `{Collaborators}.
Variables (connect_timeout timeout : Z) (cache_dir destination : string)
          (file : task_file).

Local Notation "'install' l" :=
  (downloadFileFromMaster l connect_timeout timeout cache_dir destination file)
  (at level 10, l at level 9, only parsing).

(** C1. When the file the downloader has left under the temporary name
    does not have the expected digest, the call removes it, throws the
    error of the differing SHA, and the destination is as it was before
    the call, be it absent or present. The client is taken to write no
    file but its target, and the temporary name to differ from the
    destination. *)
Theorem digest_mismatch_discards (master_uris : list string) (w w1 : world)
    (msg d : string) :
  writes_only_target ->
  tempname_in cache_dir <> destination ->
  cache_miss (files w) destination (file_sha256 file) ->
  master_uris <> [] ->
  downloadFileWithCurl master_uris connect_timeout timeout (tempname_in cache_dir)
                       (file_uri file) w = (Returned (true, msg), w1) ->
  calculateSha256 (files w1) (tempname_in cache_dir) = Returned d ->
  d <> file_sha256 file ->
  exists w2,
    install master_uris w
      = (Thrown (sha_differs (path_filename (file_filename file))), w2)
    /\ files w2 !! tempname_in cache_dir = None
    /\ files w2 !! destination = files w !! destination.
Proof.
  intros Hframe Htemp Hmiss Hmus Hdl Hd Hne.
  exists (set_files (delete (tempname_in cache_dir) (files w1)) w1).
  split.
  - rewrite (slow_path _ _ _ _ _ _ _ Hmiss).
    rewrite bool_decide_eq_false_2 by exact Hmus.
    rewrite Hdl. cbn [fst negb]. rewrite Hd.
    rewrite bool_decide_eq_false_2 by congruence. reflexivity.
  - cbn [files set_files]. split; [apply lookup_delete_eq|].
    rewrite lookup_delete_ne by exact Htemp.
    unfold downloadFileWithCurl in Hdl.
    apply (for_master_uris_frame _ _ _ _ _ _ Hframe (not_eq_sym Htemp) _ _ _ _ Hdl).
Qed.

(** C2. A destination that exists with the expected digest is given the
    permissions of the policy and returned: the client is not called,
    no request is made, nothing is logged, no other file changes. *)
Theorem cached_file_is_returned (master_uris : list string) (w : world)
    (f : regular_file) :
  files w !! destination = Some f ->
  calculateSha256 (files w) destination = Returned (file_sha256 file) ->
  exists w',
    install master_uris w = (Returned destination, w')
    /\ files w' !! destination
       = Some (File (content f) NIX_TASK_FILE_PERMS (read_fault f))
    /\ (forall q, q <> destination -> files w' !! q = files w !! q)
    /\ requests w' = requests w
    /\ curl w' = curl w
    /\ warnings w' = warnings w.
Proof.
  intros Hf Hd. eexists. split; [apply (fast_path _ _ _ _ _ _ _ _ Hf Hd)|].
  cbn [files set_files requests curl warnings].
  split; [apply lookup_insert_eq|]. split; [|auto].
  intros q Hq. apply lookup_insert_ne. congruence.
Qed.

(** C3, as the code has it. With no master-uri and a cache miss
    (destination absent, or present with another digest) the call throws
    the error of the missing master-uris and leaves the world as it
    found it: no request, no file changed, nothing logged. *)
Theorem no_master_uris_on_miss (w : world) :
  cache_miss (files w) destination (file_sha256 file) ->
  install [] w = (Thrown no_master_uris, w).
Proof. intros Hmiss. rewrite (slow_path _ _ _ _ _ _ _ Hmiss). reflexivity. Qed.

(** C9. The test for an empty list of master-uris comes after the fast
    path: a destination with the expected digest is returned though no
    master-uri is given, and the error of the missing master-uris is
    thrown only on a cache miss. *)
Theorem cached_file_needs_no_master_uri (w : world) :
  (forall f,
     files w !! destination = Some f ->
     calculateSha256 (files w) destination = Returned (file_sha256 file) ->
     fst (install [] w) = Returned destination
     /\ requests (snd (install [] w)) = requests w)
  /\ (fst (install [] w) = Thrown no_master_uris ->
      cache_miss (files w) destination (file_sha256 file)).
Proof.
  split.
  - intros f Hf Hd. rewrite (fast_path _ _ _ _ _ _ _ _ Hf Hd). auto.
  - destruct (files w !! destination) as [f|] eqn:Hf; [|intros _; left; exact Hf].
    destruct (calculateSha256 (files w) destination) as [d|e] eqn:Hd.
    + destruct (decide (d = file_sha256 file)) as [->|Hne].
      * rewrite (fast_path _ _ _ _ _ _ _ _ Hf Hd). discriminate.
      * intros _. right. exists d. rewrite Hd. auto.
    + unfold downloadFileFromMaster, bind, fs_exists, digest.
      rewrite bool_decide_eq_true_2 by (rewrite Hf; eauto).
      rewrite Hd. cbn [fst].
      rewrite (calculateSha256_throws _ _ _ Hd).
      unfold read_error, no_master_uris. intros [=].
Qed.
End CacheInstaller.

(** ** The properties at work on the small installation *)

Section Runs.
Import Fixture.

Local Notation "'fetch' l" :=
  (@downloadFileWithCurl env l 5 10 tempname task_uri)
  (at level 10, l at level 9, only parsing).
Local Notation "'install' l" :=
  (@downloadFileFromMaster env l 5 10 cache_dir destination task)
  (at level 10, l at level 9, only parsing).

Lemma ran_through_a :
  @exhausted env (createUrlEndpoint task_uri) 5 10 tempname ["https://a"%string]
    (false, ""%string) empty_cache
    (false, status_500)
    (@World env ∅ 1%nat [request_to "https://a"]
            [warning_message "https://a" status_500]).
Proof.
  eapply exhausted_cons; [vm_compute; reflexivity | reflexivity | apply exhausted_nil].
Qed.

(** Master [a] answers 500 and [b] serves the task: the task is
    installed, and the warning about [a] is in the log. *)
Example fallback_to_second_master :
  let w' := @World env
              {[ destination := File (bytes_of_string "abc") NIX_TASK_FILE_PERMS None ]}
              2%nat [request_to "https://a"; request_to "https://b"]
              [warning_message "https://a" status_500] in
  install ["https://a"; "https://b"]%string empty_cache = (Returned destination, w')
  /\ calculateSha256 (files w') destination = Returned (file_sha256 task).
Proof. vm_compute. split; reflexivity. Qed.

Lemma digest_mismatch_discards_witness :
  exists w2,
    install ["https://d"%string] outdated
      = (Thrown (sha_differs (path_filename (file_filename task))), w2)
    /\ files w2 !! @tempname_in env cache_dir = None
    /\ files w2 !! destination = files outdated !! destination.
Proof.
  eapply (@digest_mismatch_discards env 5 10 cache_dir destination task
            ["https://d"%string] outdated).
  - apply scripted_writes_only_target.
  - vm_compute. discriminate.
  - right. eexists. split; [vm_compute; reflexivity | vm_compute; discriminate].
  - discriminate.
  - vm_compute. reflexivity.
  - vm_compute. reflexivity.
  - vm_compute. discriminate.
Defined.

Lemma cached_file_is_returned_witness :
  exists w',
    install ["https://a"%string] cached = (Returned destination, w')
    /\ files w' !! destination
       = Some (File (bytes_of_string "abc") NIX_TASK_FILE_PERMS None)
    /\ (forall q, q <> destination -> files w' !! q = files cached !! q)
    /\ requests w' = requests cached
    /\ curl w' = curl cached
    /\ warnings w' = warnings cached.
Proof.
  apply (@cached_file_is_returned env 5 10 cache_dir destination task
           ["https://a"%string] cached (File (bytes_of_string "abc") 0x1a4 None)).
  - reflexivity.
  - vm_compute. reflexivity.
Defined.

Lemma no_master_uris_on_miss_witness :
  install [] empty_cache = (Thrown no_master_uris, empty_cache).
Proof.
  apply (@no_master_uris_on_miss env 5 10 cache_dir destination task empty_cache).
  left. reflexivity.
Defined.

(** C3 as stated fails: with no master-uri and the task already cached,
    the call returns the destination, not the error, and it has written
    the permissions of the destination. *)
Lemma no_master_uris_but_cached :
  fst (install [] cached) = Returned destination
  /\ fst (install [] cached) <> Thrown no_master_uris
  /\ perms <$> files cached !! destination = Some 0x1a4
  /\ perms <$> files (snd (install [] cached)) !! destination = Some 0x1e8.
Proof.
  assert (Hrun : fst (install [] cached) = Returned destination)
    by (vm_compute; reflexivity).
  split; [exact Hrun|]. split; [rewrite Hrun; discriminate|].
  split; vm_compute; reflexivity.
Qed.

Lemma fatal_failure_aborts_witness :
  fetch ["https://a"; "https://c"; "https://b"]%string empty_cache
  = (Thrown (fatal_error "could not connect"),
     @World env ∅ 2%nat [request_to "https://a"; request_to "https://c"]
            [warning_message "https://a" status_500]).
Proof.
  apply (@fatal_failure_aborts env 5 10 tempname task_uri
           ["https://a"%string] ["https://b"%string] "https://c"
           empty_cache _ _ (http_request_exception "could not connect")
           ∅ 2%nat "could not connect" ran_through_a).
  - reflexivity.
  - reflexivity.
Defined.

Lemma mirror_local_failure_is_survived_witness :
  let w1 := @World env ∅ 1%nat [request_to "https://a"]
                   [warning_message "https://a" status_500] in
  @try_master_uri env "https://a" (createUrlEndpoint task_uri) 5 10 tempname
                  (false, ""%string) empty_cache
    = (Returned (false, status_500), w1)
  /\ occurs_in "https://a" (warning_message "https://a" status_500)
  /\ @for_master_uris env ["https://a"; "https://b"]%string
                      (createUrlEndpoint task_uri) 5 10 tempname
                      (false, ""%string) empty_cache
     = @for_master_uris env ["https://b"%string] (createUrlEndpoint task_uri) 5 10
                        tempname (false, status_500) w1.
Proof.
  intros w1.
  destruct (@mirror_local_failure_is_survived env 5 10 tempname task_uri
              "https://a" ["https://b"%string] (false, ""%string) empty_cache
              (Responded (Response 500 "boom")) ∅ 1%nat status_500
              eq_refl eq_refl) as (Htry & Hnamed & _ & Hnext).
  split; [exact Htry|]. split; [exact Hnamed|].
  apply Hnext. reflexivity.
Defined.

(** The check for the file does not ask how the attempt went. Were a
    file already under the name the downloader is given (the installer
    never passes such a name: it draws a fresh one), the 500 of master
    [a] would be logged and stored and the call would return [true]
    with that message, master [b] not being asked. *)
Example leftover_file_ends_the_loop :
  let after_a := @World env (files leftover) 1%nat [request_to "https://a"]
                        [warning_message "https://a" status_500] in
  mirror_local ("https://a" +:+ createUrlEndpoint task_uri)
               (Responded (Response 500 "boom")) = Some status_500
  /\ @try_master_uri env "https://a" (createUrlEndpoint task_uri) 5 10 tempname
                     (false, ""%string) leftover
     = (Returned (false, status_500), after_a)
  /\ fetch ["https://a"; "https://b"]%string leftover
     = (Returned (true, status_500), after_a)
  /\ requests (snd (fetch ["https://a"; "https://b"]%string leftover))
     = [request_to "https://a"]
  /\ requests (snd (@for_master_uris env ["https://b"%string]
                      (createUrlEndpoint task_uri) 5 10 tempname
                      (false, status_500) after_a))
     = [request_to "https://a"; request_to "https://b"].
Proof. vm_compute. repeat split; reflexivity. Qed.

Lemma exists_decides_witness :
  fetch ["https://a"%string] empty_cache
    = (Returned (false, status_500),
       @World env ∅ 1%nat [request_to "https://a"]
              [warning_message "https://a" status_500])
  /\ fetch ["https://a"; "https://b"; "https://c"]%string empty_cache
     = (Returned (true, status_500),
        @World env
               {[ tempname := File (bytes_of_string "abc") NIX_TASK_FILE_PERMS None ]}
               2%nat [request_to "https://a"; request_to "https://b"]
               [warning_message "https://a" status_500]).
Proof.
  destruct (@exists_decides env 5 10 tempname task_uri ["https://a"%string]
              empty_cache _ _ ran_through_a) as (Hexhausted & _ & _ & Hfound).
  split; [exact Hexhausted|].
  apply (Hfound "https://b"%string ["https://c"%string] (false, status_500)).
  - reflexivity.
  - vm_compute. eauto.
Defined.

Lemma cached_file_needs_no_master_uri_witness :
  fst (install [] cached) = Returned destination
  /\ requests (snd (install [] cached)) = requests cached.
Proof.
  apply (proj1 (@cached_file_needs_no_master_uri env 5 10 cache_dir destination
                  task cached)
               (File (bytes_of_string "abc") 0x1a4 None)).
  - reflexivity.
  - vm_compute. reflexivity.
Defined.
End Runs.

(** * Further properties *)

(** ** The digest: faults, buffer and chunk size *)

Section ReadLoopFaults.
Variable n : nat.
Hypothesis n_pos : (0 < n)%nat.

(** A fault that lies beyond the end of the stream is never met: the loop
    behaves as on a readable stream. *)
Lemma read_chunks_fault_beyond (q : nat) :
  forall fuel chunks last buffer mdctx g fault,
    length chunks = (q * n)%nat ->
    (length last < n)%nat ->
    (q < fuel)%nat ->
    fault_beyond fault (length (chunks ++ last)) ->
    exists buffer' fault',
      read_chunks fuel n (Ifstream (chunks ++ last) fault false false false g)
                  buffer mdctx
      = Some (Ifstream [] fault' true true false (length last), buffer',
              mdctx ++ chunks)
      /\ firstn (length last) buffer' = last.
Proof using n_pos.
  induction q as [|q IH]; intros fuel chunks last buffer mdctx g fault Hch Hlast Hfuel Hb.
  - destruct fuel as [|fuel]; [lia|].
    apply length_zero_iff_nil in Hch. subst chunks. cbn [app] in *.
    exists (store last buffer), ((fun k => k - n)%nat <$> fault).
    split; [|apply firstn_store].
    cbn [read_chunks]. unfold ifstream_read. cbn [good eofbit failbit badbit orb negb].
    assert (Hmiss : fault_hits (Ifstream last fault false false false g) n = false).
    { unfold fault_hits. cbn [fault_in pending]. destruct fault as [k|]; [|reflexivity].
      cbn in Hb. rewrite (bool_decide_eq_false_2 (k < length last)%nat) by lia.
      apply andb_false_r. }
    rewrite Hmiss. cbn [pending fault_in].
    rewrite take_ge by lia. rewrite drop_ge by lia.
    rewrite bool_decide_eq_true_2 by lia.
    unfold stream_ok. cbn. rewrite app_nil_r. reflexivity.
  - destruct fuel as [|fuel]; [lia|].
    assert (Hn : (n <= length chunks)%nat) by lia.
    destruct (IH fuel (skipn n chunks) last (store (firstn n chunks) buffer)
                 (mdctx ++ firstn n chunks) n ((fun k => k - n)%nat <$> fault))
      as (buffer' & fault' & Hrun & Hfront).
    { rewrite length_drop. lia. }
    { exact Hlast. }
    { lia. }
    { destruct fault as [k|]; [|exact I]. cbn in *.
      rewrite length_app in *. rewrite length_drop. lia. }
    exists buffer', fault'. split; [|exact Hfront].
    cbn [read_chunks]. unfold ifstream_read. cbn [good eofbit failbit badbit orb negb].
    assert (Hmiss : fault_hits (Ifstream (chunks ++ last) fault false false false g) n
                    = false).
    { unfold fault_hits. cbn [fault_in pending]. destruct fault as [k|]; [|reflexivity].
      cbn in Hb. rewrite (bool_decide_eq_false_2 (k < length (chunks ++ last))%nat) by lia.
      apply andb_false_r. }
    rewrite Hmiss. cbn [pending fault_in].
    rewrite take_app_le by lia. rewrite drop_app_le by lia.
    rewrite length_take, Nat.min_l by lia.
    rewrite bool_decide_eq_false_2 by lia.
    unfold stream_ok. cbn [failbit badbit orb negb].
    unfold EVP_DigestUpdate at 1.
    replace (firstn n (store (firstn n chunks) buffer)) with (firstn n chunks).
    2:{ pose proof (firstn_store (firstn n chunks) buffer) as Hs.
        rewrite length_take, Nat.min_l in Hs by lia. symmetry. exact Hs. }
    rewrite Hrun. rewrite <- app_assoc, take_drop. reflexivity.
Qed.

(** A fault inside the stream is met before end-of-file: the loop stops
    on a stream that is bad and not at end-of-file. *)
Lemma read_chunks_fault_inside (fuel : nat) :
  forall data k buffer mdctx g,
    (k < length data)%nat ->
    (length data < fuel)%nat ->
    exists ifs buffer' mdctx',
      read_chunks fuel n (Ifstream data (Some k) false false false g) buffer mdctx
      = Some (ifs, buffer', mdctx')
      /\ eof ifs = false.
Proof using n_pos.
  induction fuel as [|fuel IH]; intros data k buffer mdctx g Hk Hfuel; [lia|].
  cbn [read_chunks]. unfold ifstream_read. cbn [good eofbit failbit badbit orb negb].
  unfold fault_hits. cbn [fault_in pending default].
  rewrite (bool_decide_eq_true_2 (k < length data)%nat) by exact Hk.
  rewrite andb_true_r. case_bool_decide as Hkn.
  - unfold stream_ok. cbn. eauto.
  - rewrite length_take, Nat.min_l by lia.
    rewrite bool_decide_eq_false_2 by lia.
    unfold stream_ok. cbn [failbit badbit orb negb fmap option_fmap option_map].
    apply IH; rewrite length_drop; lia.
Qed.

(** [digest_file] by cases: the digest of the whole content, or the read
    error; nothing in between. *)
Lemma digest_file_cases (buffer : list byte) (fs : gmap string regular_file)
    (path : string) :
  digest_file n buffer fs path
  = match fs !! path with
    | None => Thrown (read_error path)
    | Some f => if fault_reached f then Thrown (read_error path)
                else Returned (sha256_hex (content f))
    end.
Proof using n_pos.
  unfold digest_file, ifstream_open.
  destruct (fs !! path) as [f|]; [|reflexivity].
  unfold fault_reached. cbn [pending].
  destruct (read_fault f) as [k|] eqn:Hfault.
  - case_bool_decide as Hk.
    + destruct (read_chunks_fault_inside (S (length (content f))) (content f) k buffer
                  EVP_DigestInit_ex 0%nat Hk) as (ifs & b' & c' & Hrun & Heof); [lia|].
      rewrite Hrun, Heof. reflexivity.
    + set (data := content f) in *.
      set (q := (length data / n)%nat).
      assert (Hq : (q * n <= length data)%nat).
      { unfold q. pose proof (Nat.Div0.mul_div_le (length data) n). lia. }
      assert (Hrem : (length data - q * n < n)%nat).
      { unfold q. pose proof (Nat.div_mod_eq (length data) n).
        pose proof (Nat.mod_upper_bound (length data) n). lia. }
      destruct (read_chunks_fault_beyond q (S (length data)) (firstn (q * n) data)
                  (skipn (q * n) data) buffer EVP_DigestInit_ex 0%nat (Some k))
        as (buffer' & fault' & Hrun & Hfront).
      { rewrite length_take. lia. }
      { rewrite length_drop. lia. }
      { destruct (decide (n = 1%nat)); nia. }
      { rewrite take_drop. cbn. lia. }
      rewrite take_drop in Hrun. rewrite Hrun. cbn.
      unfold EVP_DigestUpdate, EVP_DigestFinal_ex, EVP_DigestInit_ex, sha256_hex.
      rewrite Hfront. cbn [app]. rewrite take_drop. reflexivity.
  - assert (Hr : readable f) by exact Hfault.
    pose proof (digest_file_readable n n_pos buffer {[ path := f ]} path f
                  (lookup_singleton_eq _ _) Hr) as Hd.
    unfold digest_file, ifstream_open in Hd. rewrite lookup_singleton_eq in Hd.
    rewrite Hfault in Hd. exact Hd.
Qed.
End ReadLoopFaults.

(** X10. The digest is all or nothing: [calculateSha256] throws the read
    error when the path names no file or the device fails inside the
    file, and otherwise returns the digest of the whole content; a
    returned digest is never that of a part of the file. *)
Theorem calculateSha256_whole_or_error (fs : gmap string regular_file) (path : string) :
  calculateSha256 fs path
  = match fs !! path with
    | None => Thrown (read_error path)
    | Some f => if fault_reached f then Thrown (read_error path)
                else Returned (sha256_hex (content f))
    end
  /\ forall d, calculateSha256 fs path = Returned d ->
               exists f, fs !! path = Some f /\ d = sha256_hex (content f).
Proof.
  pose proof (digest_file_cases CHUNK_SIZE chunk_size_pos (repeat x00 CHUNK_SIZE) fs path)
    as Hcases.
  fold (calculateSha256 fs path) in Hcases. split; [exact Hcases|].
  intros d Hd. rewrite Hcases in Hd.
  destruct (fs !! path) as [f|]; [|discriminate].
  destruct (fault_reached f); [discriminate|].
  injection Hd as <-. eauto.
Qed.

(** X11. Neither the chunk size nor what the buffer held before the first
    read has any influence: a digest computed with any positive chunk
    size and any initial buffer is the one [calculateSha256] computes,
    error cases included. *)
Theorem digest_ignores_buffer_and_chunk_size (n : nat) (buffer : list byte)
    (fs : gmap string regular_file) (path : string) :
  (0 < n)%nat ->
  digest_file n buffer fs path = calculateSha256 fs path.
Proof.
  intros Hn. unfold calculateSha256.
  rewrite (digest_file_cases n Hn), (digest_file_cases CHUNK_SIZE chunk_size_pos).
  reflexivity.
Qed.

Lemma digest_ignores_buffer_and_chunk_size_witness :
  digest_file 3 (bytes_of_string "stale bytes")
              {[ "f"%string := File (bytes_of_string "abcdefgh") 0 None ]} "f"
  = calculateSha256 {[ "f"%string := File (bytes_of_string "abcdefgh") 0 None ]} "f".
Proof.
  apply (digest_ignores_buffer_and_chunk_size 3). lia.
Defined.

(** ** The installer, way by way *)

Lemma calculateSha256_returned_exists (fs : gmap string regular_file) (path d : string) :
  calculateSha256 fs path = Returned d -> is_Some (fs !! path).
Proof.
  intros Hd. destruct (fs !! path) as [f|] eqn:Hf; [eauto|].
  rewrite (calculateSha256_missing _ _ Hf) in Hd. discriminate.
Qed.

(** The digest looks at the bytes and the fault of the file, not at where
    the file lies or at its permissions. *)
Lemma calculateSha256_moved (fs fs' : gmap string regular_file) (p p' d : string)
    (f f' : regular_file) :
  fs !! p = Some f -> fs' !! p' = Some f' ->
  content f' = content f -> read_fault f' = read_fault f ->
  calculateSha256 fs p = Returned d -> calculateSha256 fs' p' = Returned d.
Proof.
  intros Hf Hf' Hc Hr.
  unfold calculateSha256.
  rewrite !(digest_file_cases CHUNK_SIZE chunk_size_pos), Hf, Hf'.
  unfold fault_reached. rewrite Hc, Hr.
  destruct (match read_fault f with Some k => _ | None => _ end); [discriminate|].
  auto.
Qed.

Section InstallWays.
Context `{Collaborators}.
Variables (connect_timeout timeout : Z) (cache_dir destination : string)
          (file : task_file).

Local Notation "'install' l" :=
  (downloadFileFromMaster l connect_timeout timeout cache_dir destination file)
  (at level 10, l at level 9, only parsing).
Local Notation "'way' l" :=
  (install_case l connect_timeout timeout cache_dir destination file)
  (at level 10, l at level 9, only parsing).

(** A destination that is there but cannot be read through stops the
    call at the test of the fast path. *)
Lemma unreadable_path (master_uris : list string) (w : world) (f : regular_file)
    (e : exn) :
  files w !! destination = Some f ->
  calculateSha256 (files w) destination = Thrown e ->
  install master_uris w = (Thrown e, w).
Proof.
  intros Hf Hd. unfold downloadFileFromMaster, bind, fs_exists, digest.
  rewrite bool_decide_eq_true_2 by (rewrite Hf; eauto).
  rewrite Hd. reflexivity.
Qed.

Lemma miss_cases (master_uris : list string) (w : world) :
  cache_miss (files w) destination (file_sha256 file) ->
  way master_uris w (install master_uris w).
Proof.
  intros Hmiss. rewrite (slow_path _ _ _ _ _ _ _ Hmiss).
  case_bool_decide as Hmus; [apply case_no_master_uris; assumption|].
  destruct (downloadFileWithCurl _ _ _ _ _ w) as [[[found msg]|e] w1] eqn:Hdl.
  2:{ eapply case_download_throws; eassumption. }
  destruct found; cbn [fst snd negb].
  2:{ eapply case_download_fails; eassumption. }
  destruct (calculateSha256 (files w1) (tempname_in cache_dir)) as [d|e] eqn:Hd.
  2:{ eapply case_temp_unreadable; eassumption. }
  case_bool_decide as Hsha.
  - subst d. destruct (calculateSha256_returned_exists _ _ _ Hd) as [f Hf].
    unfold fs_rename. rewrite Hf.
    eapply case_installed; eassumption.
  - eapply case_sha_differs; try eassumption. congruence.
Qed.

(** Every call ends in one of the eight ways. *)
Lemma install_cases (master_uris : list string) (w : world) :
  way master_uris w (install master_uris w).
Proof.
  destruct (files w !! destination) as [f|] eqn:Hf.
  - destruct (calculateSha256 (files w) destination) as [d|e] eqn:Hd.
    + destruct (decide (d = file_sha256 file)) as [->|Hne].
      * rewrite (fast_path _ _ _ _ _ _ _ _ Hf Hd). apply (case_hit _ _ _ _ _ _ _ f Hf Hd).
      * apply miss_cases. right. eauto.
    + rewrite (unreadable_path _ _ _ _ Hf Hd). eapply case_unreadable; eassumption.
  - apply miss_cases. left. exact Hf.
Qed.
End InstallWays.

(** ** The downloader: requests and result *)

Section DownloaderWays.
Context `{Collaborators}.
Variables (endpoint : string) (connect_timeout_s timeout_s : Z) (file_path : string).

Local Notation "'try_' m" :=
  (try_master_uri m endpoint connect_timeout_s timeout_s file_path)
  (at level 10, m at level 9, only parsing).
Local Notation "'loop' l" :=
  (for_master_uris l endpoint connect_timeout_s timeout_s file_path)
  (at level 10, l at level 9, only parsing).
Local Notation "'req_for' m" :=
  (request_for m endpoint connect_timeout_s timeout_s)
  (at level 10, m at level 9, only parsing).

(** One attempt is one request, however it ends. *)
Lemma try_master_uri_request (m : string) (result : bool * string) (w w1 : world)
    (o : outcome (bool * string)) :
  try_ m result w = (o, w1) -> requests w1 = requests w ++ [req_for m].
Proof.
  destruct (download_file (curl w) (req_for m) file_path NIX_TASK_FILE_PERMS (files w))
    as [[r fs'] c'] eqn:Hdl.
  rewrite (try_master_uri_cases _ _ _ _ _ _ _ _ _ _ Hdl).
  destruct (fatal r); [|destruct (mirror_local _ r)]; intros [= <- <-]; reflexivity.
Qed.

Lemma loop_requests (l : list string) :
  forall result w o w',
    loop l result w = (o, w') ->
    exists k, (k <= length l)%nat
              /\ requests w' = requests w ++ map (fun m => req_for m) (take k l).
Proof.
  induction l as [|m l IH]; intros result w o w' Hrun.
  - cbn in Hrun. injection Hrun as <- <-. exists 0%nat. cbn. rewrite app_nil_r. auto.
  - rewrite for_master_uris_cons in Hrun.
    destruct (try_ m result w) as [o1 w1] eqn:Htry.
    pose proof (try_master_uri_request _ _ _ _ _ Htry) as Hreq.
    assert (Hone : requests w1 = requests w ++ map (fun m => req_for m) (take 1 (m :: l)))
      by exact Hreq.
    destruct o1 as [r1|e].
    + destruct (bool_decide _).
      * injection Hrun as <- <-. exists 1%nat. cbn [length]. split; [lia | exact Hone].
      * destruct (IH _ _ _ _ Hrun) as (k & Hk & Hreqs).
        exists (S k). cbn [length]. split; [lia|].
        rewrite Hreqs, Hreq. cbn [take map]. rewrite <- app_assoc. reflexivity.
    + injection Hrun as <- <-. exists 1%nat. cbn [length]. split; [lia | exact Hone].
Qed.

Lemma loop_result (l : list string) :
  forall result w r' w',
    fst result = false ->
    loop l result w = (Returned r', w') ->
    (fst r' = true -> is_Some (files w' !! file_path))
    /\ (fst r' = false ->
        requests w' = requests w ++ map (fun m => req_for m) l
        /\ (l <> [] -> files w' !! file_path = None)).
Proof.
  induction l as [|m l IH]; intros result w r' w' Hfalse Hrun.
  - cbn in Hrun. injection Hrun as <- <-. split; [congruence|].
    intros _. cbn. rewrite app_nil_r. split; [reflexivity | congruence].
  - rewrite for_master_uris_cons in Hrun.
    destruct (try_ m result w) as [[r1|e] w1] eqn:Htry; [|discriminate].
    destruct (try_master_uri_ok _ _ _ _ _ _ _ _ _ Htry) as (Hfst & Hreq & _).
    case_bool_decide as Hthere.
    + injection Hrun as <- <-. cbn [fst]. split; [auto | discriminate].
    + destruct (IH _ _ _ _ (eq_trans Hfst Hfalse) Hrun) as (Htrue & Hfalse').
      split; [exact Htrue|]. intros Hr'.
      destruct (Hfalse' Hr') as (Hreqs & Habsent). split.
      * rewrite Hreqs, Hreq. cbn [map]. rewrite <- app_assoc. reflexivity.
      * intros _. destruct l as [|m' l]; [|apply Habsent; discriminate].
        cbn in Hrun. injection Hrun as <- <-.
        destruct (files w1 !! file_path) eqn:E; [|reflexivity].
        exfalso. apply Hthere. eauto.
Qed.
End DownloaderWays.

Section DownloaderProperties.
Context `{Collaborators}.
Variables (connect_timeout_s timeout_s : Z) (file_path : string) (uri : uri_t).

Local Notation "'req_for' m" :=
  (request_for m (createUrlEndpoint uri) connect_timeout_s timeout_s)
  (at level 10, m at level 9, only parsing).

(** X6. What the downloader returns tells where the file is: it returns
    [true] only with the file in place, and it returns [false] only after
    one request to every master-uri of the list, in the order of the
    list, and, unless the list is empty, with the file not in place. *)
Theorem download_result_tells (master_uris : list string) (w w' : world)
    (r : bool * string) :
  downloadFileWithCurl master_uris connect_timeout_s timeout_s file_path uri w
    = (Returned r, w') ->
  (fst r = true -> is_Some (files w' !! file_path))
  /\ (fst r = false ->
      requests w' = requests w ++ map (fun m => req_for m) master_uris
      /\ (master_uris <> [] -> files w' !! file_path = None)).
Proof.
  unfold downloadFileWithCurl. apply loop_result. reflexivity.
Qed.

(** X7. However a call of the downloader ends, by a result or by an
    exception, the requests it has made are those for the first master-uris
    of the list, one each and in the order of the list: no master-uri is
    asked twice, none is skipped. *)
Theorem requests_follow_the_list (master_uris : list string) (w w' : world)
    (o : outcome (bool * string)) :
  downloadFileWithCurl master_uris connect_timeout_s timeout_s file_path uri w
    = (o, w') ->
  exists k, (k <= length master_uris)%nat
            /\ requests w' = requests w ++ map (fun m => req_for m) (take k master_uris).
Proof. unfold downloadFileWithCurl. apply loop_requests. Qed.

(** X9. A first master-uri that answers below 400 and leaves the file in
    place ends the call: the result is [true] with the empty message,
    one request has been made, nothing has been logged, and the
    master-uris behind it are not asked. *)
Theorem first_master_uri_serves (m : string) (rest : list string) (w : world)
    (resp : response) (fs' : gmap string regular_file) (c' : client) :
  download_file (curl w) (req_for m) file_path NIX_TASK_FILE_PERMS (files w)
    = (Responded resp, fs', c') ->
  status_code resp < 400 ->
  is_Some (fs' !! file_path) ->
  downloadFileWithCurl (m :: rest) connect_timeout_s timeout_s file_path uri w
  = (Returned (true, ""%string),
     World fs' c' (requests w ++ [req_for m]) (warnings w)).
Proof.
  intros Hdl Hstatus Hthere. unfold downloadFileWithCurl.
  rewrite for_master_uris_cons.
  rewrite (try_master_uri_cases _ _ _ _ _ _ _ _ _ _ Hdl). cbn [fatal mirror_local].
  destruct (400 <=? status_code resp) eqn:E; [apply Z.leb_le in E; lia|].
  cbn [files]. rewrite bool_decide_eq_true_2 by exact Hthere. reflexivity.
Qed.
End DownloaderProperties.

(** ** The installer: what every call guarantees *)

Section InstallerProperties.
Context `{Collaborators}.
Variables (connect_timeout timeout : Z) (cache_dir destination : string)
          (file : task_file).

Local Notation "'install' l" :=
  (downloadFileFromMaster l connect_timeout timeout cache_dir destination file)
  (at level 10, l at level 9, only parsing).

(** A call that returns leaves the expected digest at the destination. *)
Lemma returned_digest (master_uris : list string) (w w' : world) (p : string) :
  install master_uris w = (Returned p, w') ->
  p = destination
  /\ calculateSha256 (files w') destination = Returned (file_sha256 file).
Proof.
  destruct (install_cases connect_timeout timeout cache_dir destination file
              master_uris w)
    as [f Hf Hd| | | | | | |msg w1 f Hmiss Hmus Hdl Hd Hf]; try discriminate;
    intros [= <- <-].
  - split; [reflexivity|]. cbn [files set_files].
    eapply (calculateSha256_moved (files w) _ destination destination _ f);
      [exact Hf | apply lookup_insert_eq | reflexivity | reflexivity | exact Hd].
  - split; [reflexivity|]. destruct (decide (tempname_in cache_dir = destination)) as [E|E].
    + rewrite <- E. exact Hd.
    + cbn [files set_files].
      eapply (calculateSha256_moved (files w1) _ (tempname_in cache_dir) destination _ f f);
        [exact Hf | apply lookup_insert_eq | reflexivity | reflexivity | exact Hd].
Qed.

(** X1. Whenever the call returns, it returns the destination, and the
    file then at the destination has the expected digest: whichever way
    the call took, a returned path never names unverified content. *)
Theorem returned_path_is_verified (master_uris : list string) (w w' : world)
    (p : string) :
  install master_uris w = (Returned p, w') ->
  p = destination
  /\ exists f, files w' !! destination = Some f
               /\ fault_reached f = false
               /\ sha256_hex (content f) = file_sha256 file.
Proof.
  intros Hrun. destruct (returned_digest _ _ _ _ Hrun) as [-> Hd].
  split; [reflexivity|].
  destruct (calculateSha256_returned_exists _ _ _ Hd) as [f Hf].
  exists f. split; [exact Hf|].
  unfold calculateSha256 in Hd.
  rewrite (digest_file_cases CHUNK_SIZE chunk_size_pos), Hf in Hd.
  destruct (fault_reached f); [discriminate|]. injection Hd as Hd. auto.
Qed.

(** X2. The call is idempotent: after a call that has returned, a further
    call, with whatever master-uris or with none, returns the destination
    again without a request, without a warning, and without changing the
    content of any file. *)
Theorem second_call_needs_no_download (master_uris master_uris' : list string)
    (w w' : world) (p : string) :
  install master_uris w = (Returned p, w') ->
  exists w'',
    install master_uris' w' = (Returned destination, w'')
    /\ requests w'' = requests w'
    /\ curl w'' = curl w'
    /\ warnings w'' = warnings w'
    /\ forall q, content <$> files w'' !! q = content <$> files w' !! q.
Proof.
  intros Hrun. destruct (returned_digest _ _ _ _ Hrun) as [_ Hd].
  destruct (calculateSha256_returned_exists _ _ _ Hd) as [f Hf].
  eexists. split; [apply (fast_path _ _ _ _ _ _ _ _ Hf Hd)|].
  cbn [files set_files requests curl warnings]. repeat split.
  intros q. destruct (decide (q = destination)) as [->|Hq].
  - rewrite lookup_insert_eq, Hf. reflexivity.
  - rewrite lookup_insert_ne by congruence. reflexivity.
Qed.

(** X3. No failure touches the destination: when the call throws, for
    whatever reason, the destination is as it was before the call. The
    client is taken to write no file but its target, and the temporary
    name to differ from the destination. *)
Theorem failure_keeps_destination (master_uris : list string) (w w' : world)
    (e : exn) :
  writes_only_target ->
  tempname_in cache_dir <> destination ->
  install master_uris w = (Thrown e, w') ->
  files w' !! destination = files w !! destination.
Proof.
  intros Hframe Htemp.
  assert (Hdl : forall o w1,
            downloadFileWithCurl master_uris connect_timeout timeout
              (tempname_in cache_dir) (file_uri file) w = (o, w1) ->
            files w1 !! destination = files w !! destination).
  { intros o w1. unfold downloadFileWithCurl.
    apply (for_master_uris_frame _ _ _ _ _ _ Hframe (not_eq_sym Htemp)). }
  destruct (install_cases connect_timeout timeout cache_dir destination file
              master_uris w); try discriminate; intros [= <- <-];
    try reflexivity; try (eapply Hdl; eassumption).
  cbn [files set_files]. rewrite lookup_delete_ne by exact Htemp.
  eapply Hdl; eassumption.
Qed.

(** X4. A download that verifies is installed as it is: the destination
    receives the very file the client left under the temporary name,
    bytes and permissions, in place of whatever was there; the temporary
    name is free again; no other file changes and nothing more is asked
    or logged. *)
Theorem verified_download_is_installed (master_uris : list string) (w w1 : world)
    (msg : string) :
  tempname_in cache_dir <> destination ->
  cache_miss (files w) destination (file_sha256 file) ->
  master_uris <> [] ->
  downloadFileWithCurl master_uris connect_timeout timeout (tempname_in cache_dir)
                       (file_uri file) w = (Returned (true, msg), w1) ->
  calculateSha256 (files w1) (tempname_in cache_dir) = Returned (file_sha256 file) ->
  exists f w2,
    files w1 !! tempname_in cache_dir = Some f
    /\ install master_uris w = (Returned destination, w2)
    /\ files w2 !! destination = Some f
    /\ files w2 !! tempname_in cache_dir = None
    /\ (forall q, q <> destination -> q <> tempname_in cache_dir ->
                  files w2 !! q = files w1 !! q)
    /\ requests w2 = requests w1
    /\ warnings w2 = warnings w1.
Proof.
  intros Htemp Hmiss Hmus Hdl Hd.
  destruct (calculateSha256_returned_exists _ _ _ Hd) as [f Hf].
  exists f, (set_files (<[destination := f]> (delete (tempname_in cache_dir) (files w1))) w1).
  split; [exact Hf|]. split.
  - rewrite (slow_path _ _ _ _ _ _ _ Hmiss).
    rewrite bool_decide_eq_false_2 by exact Hmus.
    rewrite Hdl. cbn [fst negb]. rewrite Hd.
    rewrite bool_decide_eq_true_2 by reflexivity.
    unfold fs_rename. rewrite Hf.
    destruct (decide (tempname_in cache_dir = destination)); [contradiction|reflexivity].
  - cbn [files set_files requests warnings].
    split; [apply lookup_insert_eq|].
    split; [rewrite lookup_insert_ne by congruence; apply lookup_delete_eq|].
    split; [|auto]. intros q Hq Hq'.
    rewrite lookup_insert_ne by congruence. apply lookup_delete_ne. congruence.
Qed.

(** X5. When the downloader gives up, the call throws the error that
    names the file and carries the downloader's last message; by then
    every master-uri has been asked once, in order, and nothing lies
    under the temporary name. *)
Theorem exhausted_master_uris_fail (master_uris : list string) (w w1 : world)
    (msg : string) :
  cache_miss (files w) destination (file_sha256 file) ->
  master_uris <> [] ->
  downloadFileWithCurl master_uris connect_timeout timeout (tempname_in cache_dir)
                       (file_uri file) w = (Returned (false, msg), w1) ->
  install master_uris w
    = (Thrown (all_master_uris_failed (file_filename file) msg), w1)
  /\ files w1 !! tempname_in cache_dir = None
  /\ requests w1
     = requests w
       ++ map (fun m => request_for m (createUrlEndpoint (file_uri file))
                                    connect_timeout timeout) master_uris.
Proof.
  intros Hmiss Hmus Hdl. split.
  - rewrite (slow_path _ _ _ _ _ _ _ Hmiss).
    rewrite bool_decide_eq_false_2 by exact Hmus.
    rewrite Hdl. reflexivity.
  - unfold downloadFileWithCurl in Hdl.
    destruct (loop_result _ _ _ _ _ (false, ""%string) _ _ _ eq_refl Hdl)
      as (_ & Hfalse).
    destruct (Hfalse eq_refl) as (Hreq & Habsent). auto.
Qed.

(** X12. The call writes under two names only: whatever its outcome, a
    file that is neither the destination nor the temporary file is as
    it was before. The client is taken to write no file but its target. *)
Theorem only_two_paths_are_written (master_uris : list string) (w w' : world)
    (o : outcome string) (q : string) :
  writes_only_target ->
  q <> destination ->
  q <> tempname_in cache_dir ->
  install master_uris w = (o, w') ->
  files w' !! q = files w !! q.
Proof.
  intros Hframe Hq Hq'.
  assert (Hdl : forall o w1,
            downloadFileWithCurl master_uris connect_timeout timeout
              (tempname_in cache_dir) (file_uri file) w = (o, w1) ->
            files w1 !! q = files w !! q).
  { intros o1 w1. unfold downloadFileWithCurl.
    apply (for_master_uris_frame _ _ _ _ _ _ Hframe Hq'). }
  destruct (install_cases connect_timeout timeout cache_dir destination file
              master_uris w); intros [= <- <-];
    try reflexivity; try (eapply Hdl; eassumption).
  - cbn [files set_files]. apply lookup_insert_ne. congruence.
  - cbn [files set_files]. rewrite lookup_delete_ne by congruence.
    eapply Hdl; eassumption.
  - destruct (decide (tempname_in cache_dir = destination)).
    + eapply Hdl; eassumption.
    + cbn [files set_files]. rewrite lookup_insert_ne by congruence.
      rewrite lookup_delete_ne by congruence. eapply Hdl; eassumption.
Qed.

(** X13. A destination that is there but cannot be read through stops the
    call: it throws the read error of the destination before any
    request, whatever master-uris are given, and changes nothing; the
    damaged file is not replaced by a download. *)
Theorem damaged_destination_blocks (master_uris : list string) (w : world)
    (f : regular_file) :
  files w !! destination = Some f ->
  fault_reached f = true ->
  install master_uris w = (Thrown (read_error destination), w).
Proof.
  intros Hf Hfault. apply (unreadable_path _ _ _ _ _ _ _ f); [exact Hf|].
  unfold calculateSha256.
  rewrite (digest_file_cases CHUNK_SIZE chunk_size_pos), Hf, Hfault. reflexivity.
Qed.

(** X16. Only a differing digest removes the temporary file. When the
    downloaded file cannot be read through, the call throws the read
    error of the temporary file and leaves that file where the client
    put it. *)
Theorem unreadable_download_is_left_behind (master_uris : list string)
    (w w1 : world) (msg : string) (e : exn) :
  cache_miss (files w) destination (file_sha256 file) ->
  master_uris <> [] ->
  downloadFileWithCurl master_uris connect_timeout timeout (tempname_in cache_dir)
                       (file_uri file) w = (Returned (true, msg), w1) ->
  calculateSha256 (files w1) (tempname_in cache_dir) = Thrown e ->
  install master_uris w = (Thrown (read_error (tempname_in cache_dir)), w1)
  /\ is_Some (files w1 !! tempname_in cache_dir).
Proof.
  intros Hmiss Hmus Hdl Hd. split.
  - rewrite (slow_path _ _ _ _ _ _ _ Hmiss).
    rewrite bool_decide_eq_false_2 by exact Hmus.
    rewrite Hdl. cbn [fst negb]. rewrite Hd.
    rewrite (calculateSha256_throws _ _ _ Hd). reflexivity.
  - unfold downloadFileWithCurl in Hdl.
    destruct (loop_result _ _ _ _ _ (false, ""%string) _ _ _ eq_refl Hdl) as (Htrue & _).
    apply Htrue. reflexivity.
Qed.
End InstallerProperties.

(** ** The endpoint: characters and ambiguity *)

Lemma createUrlEndpoint_shape (path : string) (params : option (list (string * string))) :
  createUrlEndpoint (Uri path params)
  = if bool_decide (default [] params = [])
    then path else path +:+ "?" +:+ query_of (default [] params).
Proof.
  unfold createUrlEndpoint. cbn [uri_path uri_params].
  case_bool_decide as Hkvs; [reflexivity|].
  rewrite fold_left_pairs, pairs_with_ampersands_join.
  - rewrite <- !append_assoc. rewrite pop_back_app.
    unfold query_of. rewrite !append_assoc. reflexivity.
  - unfold keys. destruct (default [] params); [congruence | discriminate].
Qed.

Lemma string_forallb_app (p : ascii -> bool) (s t : string) :
  string_forallb p (s +:+ t) = string_forallb p s && string_forallb p t.
Proof.
  induction s as [|c s IH]; [reflexivity|].
  rewrite append_cons. cbn [string_forallb]. rewrite IH. apply andb_assoc.
Qed.

Lemma hex_digit_unreserved (n : N) : unreserved (hex_digit n) = true.
Proof.
  unfold hex_digit. generalize (N.to_nat n) as k. intros k.
  do 16 (destruct k as [|k]; [reflexivity|]). reflexivity.
Qed.

Lemma escaped_query_chars (s : string) :
  string_forallb query_char (curl_escaped_string s) = true.
Proof.
  induction s as [|c s IH]; [reflexivity|].
  cbn [curl_escaped_string]. destruct (unreserved c) eqn:Hc; cbn [string_forallb].
  - rewrite IH. unfold query_char. rewrite Hc. reflexivity.
  - rewrite IH. unfold query_char. rewrite !hex_digit_unreserved. reflexivity.
Qed.

Lemma query_of_chars (kvs : list (string * string)) :
  string_forallb query_char (query_of kvs) = true.
Proof.
  unfold query_of. generalize (keys kvs) as ks. intros ks.
  assert (Hpair : forall k, string_forallb query_char
                              (escaped_pair (k, params_get kvs k)) = true).
  { intros k. unfold escaped_pair. cbn [fst snd].
    rewrite !string_forallb_app, !escaped_query_chars. reflexivity. }
  induction ks as [|k ks IH]; [reflexivity|].
  destruct ks as [|k' ks]; cbn [map join_with] in *; [apply Hpair|].
  rewrite !string_forallb_app, Hpair, IH. reflexivity.
Qed.

Lemma string_forallb_weaken (p q : ascii -> bool) (s : string) :
  (forall c, p c = true -> q c = true) ->
  string_forallb p s = true -> string_forallb q s = true.
Proof.
  intros Hpq. induction s as [|c s IH]; [reflexivity|]. cbn [string_forallb].
  intros [Hc Hs]%andb_prop. rewrite (Hpq c Hc), (IH Hs). reflexivity.
Qed.

(** X14. Whatever the keys and values hold, the endpoint is the path
    followed by characters that are safe in a query: after the path come
    only the question mark, unreserved characters, the percent sign of an
    escape, the equals sign and the ampersand. No space, quote, slash,
    hash or byte beyond ASCII of a key or value reaches the URL. *)
Theorem endpoint_is_url_safe (path : string) (params : option (list (string * string))) :
  exists suffix,
    createUrlEndpoint (Uri path params) = path +:+ suffix
    /\ string_forallb (fun c => query_char c || bool_decide (c = "?"%char)) suffix = true
    /\ (suffix = ""%string <-> default [] params = []).
Proof.
  rewrite createUrlEndpoint_shape. case_bool_decide as Hkvs.
  - exists ""%string. rewrite append_nil_r. repeat split; auto.
  - exists ("?" +:+ query_of (default [] params)). split; [reflexivity|]. split.
    + change ("?" +:+ query_of (default [] params))
        with (String "?" (query_of (default [] params))).
      cbn [string_forallb].
      rewrite (bool_decide_eq_true_2 ("?"%char = "?"%char)) by reflexivity.
      rewrite orb_true_r. cbn [andb].
      apply (string_forallb_weaken query_char); [|apply query_of_chars].
      intros c Hc. rewrite Hc. reflexivity.
    + split; [discriminate | contradiction].
Qed.

Lemma unescape_char (c : ascii) (rest : string) :
  curl_unescape (curl_escaped_string (String c rest))
  = String c (curl_unescape (curl_escaped_string rest)).
Proof.
  destruct c as [[] [] [] [] [] [] [] []]; reflexivity.
Qed.

(** Escaping loses nothing: an escaped string reads back as the original. *)
Lemma curl_unescape_escaped (s : string) : curl_unescape (curl_escaped_string s) = s.
Proof.
  induction s as [|c s IH]; [reflexivity|]. rewrite unescape_char, IH. reflexivity.
Qed.

Lemma curl_escaped_string_inj (s t : string) :
  curl_escaped_string s = curl_escaped_string t -> s = t.
Proof.
  intros E. rewrite <- (curl_unescape_escaped s), <- (curl_unescape_escaped t), E.
  reflexivity.
Qed.

(** Two strings free of a character, each followed by it, part at the
    same place. *)
Lemma split_at_separator (c : ascii) (a a' b b' : string) :
  count_char c a = 0%nat -> count_char c a' = 0%nat ->
  a +:+ String c b = a' +:+ String c b' -> a = a' /\ b = b'.
Proof.
  revert a'. induction a as [|d a IH]; intros a' Ha Ha' E.
  - destruct a' as [|d' a'].
    + rewrite !append_nil_l in E. injection E as <-. auto.
    + rewrite append_nil_l, append_cons in E. injection E as <- _.
      cbn [count_char] in Ha'. rewrite bool_decide_eq_true_2 in Ha' by reflexivity. lia.
  - destruct a' as [|d' a'].
    + rewrite append_nil_l, append_cons in E. injection E as -> _.
      cbn [count_char] in Ha. rewrite bool_decide_eq_true_2 in Ha by reflexivity. lia.
    + rewrite !append_cons in E. injection E as <- E.
      cbn [count_char] in Ha, Ha'.
      destruct (IH a') as [-> ->]; [lia | lia | exact E | auto].
Qed.

Lemma escaped_pair_inj (kv kv' : string * string) :
  escaped_pair kv = escaped_pair kv' -> kv = kv'.
Proof.
  destruct kv as [k v], kv' as [k' v']. unfold escaped_pair. cbn [fst snd].
  intros E.
  destruct (split_at_separator "=" _ _ _ _
              (escaped_plain "=" k eq_refl) (escaped_plain "=" k' eq_refl) E)
    as [Hk Hv].
  apply curl_escaped_string_inj in Hk, Hv. congruence.
Qed.

Lemma pairs_with_ampersands_inj (l l' : list (string * string)) :
  pairs_with_ampersands (map escaped_pair l) = pairs_with_ampersands (map escaped_pair l') ->
  l = l'.
Proof.
  revert l'. induction l as [|kv l IH]; intros [|kv' l'] E; cbn [map pairs_with_ampersands] in E.
  - reflexivity.
  - exfalso. destruct (escaped_pair kv'); discriminate.
  - exfalso. destruct (escaped_pair kv); discriminate.
  - destruct (split_at_separator "&" _ _ _ _
                (escaped_pair_plain "&" kv (or_intror eq_refl))
                (escaped_pair_plain "&" kv' (or_intror eq_refl)) E) as [Hkv E'].
    apply escaped_pair_inj in Hkv. apply IH in E'. congruence.
Qed.

Lemma query_of_inj (kvs kvs' : list (string * string)) :
  NoDup (keys kvs) -> NoDup (keys kvs') ->
  kvs <> [] -> kvs' <> [] ->
  query_of kvs = query_of kvs' -> kvs = kvs'.
Proof.
  intros Hnd Hnd' Hne Hne' E. unfold query_of in E.
  rewrite (params_get_listed _ Hnd), (params_get_listed _ Hnd') in E.
  apply pairs_with_ampersands_inj.
  rewrite !pairs_with_ampersands_join, E; [reflexivity| |];
    intros Hnil; apply map_eq_nil in Hnil; contradiction.
Qed.

(** X15. Escaping leaves no room for ambiguity: two parameter objects
    that differ (no key twice in either) never give the same endpoint for
    a path. In particular no value, whatever separators it holds, can
    pass for further parameters. *)
Theorem different_params_different_endpoints (path : string)
    (kvs kvs' : list (string * string)) :
  NoDup (keys kvs) -> NoDup (keys kvs') ->
  kvs <> kvs' ->
  createUrlEndpoint (Uri path (Some kvs)) <> createUrlEndpoint (Uri path (Some kvs')).
Proof.
  intros Hnd Hnd' Hdiff E. apply Hdiff.
  rewrite !createUrlEndpoint_shape in E.
  change (default [] (Some kvs)) with kvs in E.
  change (default [] (Some kvs')) with kvs' in E.
  do 2 case_bool_decide.
  - congruence.
  - exfalso. rewrite <- (append_nil_r path) in E at 1.
    apply (inj (String.append path)) in E. discriminate.
  - exfalso. rewrite <- (append_nil_r path) in E at 2.
    apply (inj (String.append path)) in E. discriminate.
  - apply (inj (String.append path)) in E. rewrite !append_cons, !append_nil_l in E.
    injection E as E. apply query_of_inj; assumption.
Qed.

(** ** The further properties at work on the small installation *)

Import Fixture Fixture2.

Local Notation "'fetch_' l" :=
  (@downloadFileWithCurl env l 5 10 tempname task_uri)
  (at level 10, l at level 9, only parsing).
Local Notation "'install_' l" :=
  (@downloadFileFromMaster env l 5 10 cache_dir destination task)
  (at level 10, l at level 9, only parsing).

Lemma download_result_tells_witness :
  requests after_a = requests empty_cache ++ map request_to ["https://a"%string]
  /\ (["https://a"%string] <> [] -> files after_a !! tempname = None).
Proof.
  apply (@download_result_tells env 5 10 tempname task_uri ["https://a"%string]
           empty_cache after_a (false, status_500)).
  - vm_compute. reflexivity.
  - reflexivity.
Defined.

Lemma requests_follow_the_list_witness :
  exists k, (k <= 3)%nat
    /\ [request_to "https://a"; request_to "https://c"]
       = [] ++ map request_to (take k ["https://a"; "https://c"; "https://b"]%string).
Proof.
  apply (@requests_follow_the_list env 5 10 tempname task_uri
           ["https://a"; "https://c"; "https://b"]%string empty_cache
           (@World env ∅ 2%nat [request_to "https://a"; request_to "https://c"]
                   [warning_message "https://a" status_500])
           (Thrown (fatal_error "could not connect"))).
  vm_compute. reflexivity.
Defined.

Lemma first_master_uri_serves_witness :
  fetch_ ["https://b"; "https://a"]%string empty_cache
  = (Returned (true, ""%string),
     @World env {[ tempname := abc_file ]} 1%nat [request_to "https://b"] []).
Proof.
  apply (@first_master_uri_serves env 5 10 tempname task_uri "https://b"
           ["https://a"%string] empty_cache (Response 200 "")
           {[ tempname := abc_file ]} 1%nat).
  - vm_compute. reflexivity.
  - reflexivity.
  - vm_compute. eauto.
Defined.

Lemma returned_path_is_verified_witness :
  destination = destination
  /\ exists f, files installed !! destination = Some f
               /\ fault_reached f = false
               /\ sha256_hex (content f) = file_sha256 task.
Proof.
  apply (@returned_path_is_verified env 5 10 cache_dir destination task
           ["https://a"; "https://b"]%string empty_cache installed destination).
  vm_compute. reflexivity.
Defined.

Lemma second_call_needs_no_download_witness :
  exists w'',
    install_ [] installed = (Returned destination, w'')
    /\ requests w'' = requests installed
    /\ curl w'' = curl installed
    /\ warnings w'' = warnings installed
    /\ forall q, content <$> files w'' !! q = content <$> files installed !! q.
Proof.
  apply (@second_call_needs_no_download env 5 10 cache_dir destination task
           ["https://a"; "https://b"]%string [] empty_cache installed destination).
  vm_compute. reflexivity.
Defined.

Lemma failure_keeps_destination_witness :
  files (@World env (files outdated) 2%nat
                [request_to "https://a"; request_to "https://c"]
                [warning_message "https://a" status_500]) !! destination
  = files outdated !! destination.
Proof.
  apply (@failure_keeps_destination env 5 10 cache_dir destination task
           ["https://a"; "https://c"]%string outdated _
           (fatal_error "could not connect")).
  - apply scripted_writes_only_target.
  - vm_compute. discriminate.
  - vm_compute. reflexivity.
Defined.

Lemma verified_download_is_installed_witness :
  exists f w2,
    files (@World env (<[ tempname := abc_file ]> (files outdated)) 1%nat
                  [request_to "https://b"] []) !! @tempname_in env cache_dir = Some f
    /\ install_ ["https://b"%string] outdated = (Returned destination, w2)
    /\ files w2 !! destination = Some f
    /\ files w2 !! @tempname_in env cache_dir = None
    /\ (forall q, q <> destination -> q <> @tempname_in env cache_dir ->
                  files w2 !! q
                  = files (@World env (<[ tempname := abc_file ]> (files outdated)) 1%nat
                                  [request_to "https://b"] []) !! q)
    /\ requests w2 = [request_to "https://b"]
    /\ warnings w2 = [].
Proof.
  apply (@verified_download_is_installed env 5 10 cache_dir destination task
           ["https://b"%string] outdated
           (@World env (<[ tempname := abc_file ]> (files outdated)) 1%nat
                   [request_to "https://b"] []) ""%string).
  - vm_compute. discriminate.
  - right. eexists. split; [vm_compute; reflexivity | vm_compute; discriminate].
  - discriminate.
  - vm_compute. reflexivity.
  - vm_compute. reflexivity.
Defined.

Lemma exhausted_master_uris_fail_witness :
  install_ ["https://a"%string] empty_cache
    = (Thrown (all_master_uris_failed (file_filename task) status_500), after_a)
  /\ files after_a !! @tempname_in env cache_dir = None
  /\ requests after_a
     = requests empty_cache
       ++ map (fun m => request_for m (createUrlEndpoint (file_uri task)) 5 10)
              ["https://a"%string].
Proof.
  apply (@exhausted_master_uris_fail env 5 10 cache_dir destination task
           ["https://a"%string] empty_cache after_a status_500).
  - left. reflexivity.
  - discriminate.
  - vm_compute. reflexivity.
Defined.

Lemma only_two_paths_are_written_witness :
  files (@World env (<[ neighbour := File (bytes_of_string "other") 0x1e8 None ]>
                       {[ destination := abc_file ]}) 1%nat
                [request_to "https://b"] []) !! neighbour
  = files crowded !! neighbour.
Proof.
  apply (@only_two_paths_are_written env 5 10 cache_dir destination task
           ["https://b"%string] crowded _ (Returned destination) neighbour).
  - apply scripted_writes_only_target.
  - vm_compute. discriminate.
  - vm_compute. discriminate.
  - vm_compute. reflexivity.
Defined.

Lemma damaged_destination_blocks_witness :
  install_ ["https://b"%string] damaged = (Thrown (read_error destination), damaged).
Proof.
  apply (@damaged_destination_blocks env 5 10 cache_dir destination task
           ["https://b"%string] damaged
           (File (bytes_of_string "abc") 0x1e8 (Some 1%nat))).
  - reflexivity.
  - reflexivity.
Defined.

(** A value that holds the separators is escaped, and so is told from
    two parameters. *)
Lemma different_params_different_endpoints_witness :
  createUrlEndpoint (Uri "/tasks/run" (Some [("a", "1&b=2")]%string))
    = "/tasks/run?a=1%26b%3D2"%string
  /\ createUrlEndpoint (Uri "/tasks/run" (Some [("a", "1"); ("b", "2")]%string))
     = "/tasks/run?a=1&b=2"%string
  /\ createUrlEndpoint (Uri "/tasks/run" (Some [("a", "1&b=2")]%string))
     <> createUrlEndpoint (Uri "/tasks/run" (Some [("a", "1"); ("b", "2")]%string)).
Proof.
  split; [reflexivity|]. split; [reflexivity|].
  apply (different_params_different_endpoints "/tasks/run"
           [("a", "1&b=2")]%string [("a", "1"); ("b", "2")]%string).
  - apply (bool_decide_unpack _). vm_compute. exact I.
  - apply (bool_decide_unpack _). vm_compute. exact I.
  - discriminate.
Defined.

Lemma unreadable_download_is_left_behind_witness :
  @downloadFileFromMaster worn ["https://b"%string] 5 10 cache_dir destination task
                          worn_world
  = (Thrown (read_error (@tempname_in worn cache_dir)),
     @World worn {[ tempname := File (bytes_of_string "abc") NIX_TASK_FILE_PERMS
                                     (Some 1%nat) ]}
            1%nat [request_to "https://b"] [])
  /\ is_Some (files (@World worn
                      {[ tempname := File (bytes_of_string "abc") NIX_TASK_FILE_PERMS
                                          (Some 1%nat) ]}
                      1%nat [request_to "https://b"] []) !! @tempname_in worn cache_dir).
Proof.
  apply (@unreadable_download_is_left_behind worn 5 10 cache_dir destination task
           ["https://b"%string] worn_world _ ""%string
           (read_error (@tempname_in worn cache_dir))).
  - left. reflexivity.
  - discriminate.
  - vm_compute. reflexivity.
  - vm_compute. reflexivity.
Defined.
